(** * Modbus slave simulator: parameter store, register codec, sync engine
      and navigation state machine of [src/main.cpp], embedded in Rocq.

    The firmware runs on an ESP32: [float] is IEEE-754 binary32, [long] and
    [int] are 32 bits wide, [uint16_t] and [uint32_t] wrap around.  Floats
    are embedded with the Standard Library's [SpecFloat] at precision 24, so
    that every arithmetic step of the source rounds the way the hardware
    does and the model evaluates on concrete inputs. *)

From Stdlib Require Import ZArith Lia Bool List Ascii String.
From Stdlib Require Import Floats.SpecFloat.
From stdpp Require Import gmap list.

Open Scope Z_scope.

(** ** binary32 arithmetic *)

Module F32.

Definition prec : Z := 24.
Definition emax : Z := 128.

Definition mul : spec_float -> spec_float -> spec_float := SFmul prec emax.
Definition div : spec_float -> spec_float -> spec_float := SFdiv prec emax.
Definition add : spec_float -> spec_float -> spec_float := SFadd prec emax.
Definition sub : spec_float -> spec_float -> spec_float := SFsub prec emax.
Definition neg : spec_float -> spec_float := SFopp.
Definition fabsf : spec_float -> spec_float := SFabs.

(** C's [a < b], [a > b], [a >= b] on floats; all are false on a NaN. *)
Definition lt (a b : spec_float) : bool := SFltb a b.
Definition gt (a b : spec_float) : bool := SFltb b a.
Definition ge (a b : spec_float) : bool := SFleb b a.
Definition le (a b : spec_float) : bool := SFleb a b.

(** Conversion of an integer, as [(float)regval] does. *)
Definition of_Z (z : Z) : spec_float := binary_normalize prec emax z 0 false.

(** The literal [n/d] for a decimal fraction whose numerator and
    denominator are exact in binary32: the correctly rounded quotient is
    the float the compiler emits for the literal. *)
Definition lit (n d : Z) : spec_float := div (of_Z n) (of_Z d).

Definition zero : spec_float := of_Z 0.
Definition half : spec_float := lit 1 2.

Definition is_nan (x : spec_float) : bool :=
  match x with S754_nan => true | _ => false end.

Definition is_finite (x : spec_float) : bool :=
  match x with S754_zero _ | S754_finite _ _ _ => true | _ => false end.

End F32.

(** ** Integer types of the target *)

Definition LONG_MIN : Z := - 2 ^ 31.
Definition LONG_MAX : Z := 2 ^ 31 - 1.

Definition to_uint16 (z : Z) : Z := z mod 2 ^ 16.
Definition to_uint32 (z : Z) : Z := z mod 2 ^ 32.
Definition to_long (z : Z) : Z := (z + 2 ^ 31) mod 2 ^ 32 - 2 ^ 31.

(** [clamp] of the source, at its two instances. *)
Definition clamp (v lo hi : Z) : Z :=
  if v <? lo then lo else if v >? hi then hi else v.

Definition clampf (v lo hi : spec_float) : spec_float :=
  if F32.lt v lo then lo else if F32.gt v hi then hi else v.

(** ** Parameters *)

Record Param := mkParam {
  name : string;
  unit : string;
  minVal : spec_float;
  maxVal : spec_float;
  step : spec_float;
  reg : Z;
  value : spec_float
}.

Definition set_value (p : Param) (v : spec_float) : Param :=
  mkParam (name p) (unit p) (minVal p) (maxVal p) (step p) (reg p) v.

Definition pH : Param :=
  mkParam "pH" "pH" (F32.lit 0 100) (F32.lit 1400 100) (F32.lit 1 100) 1 (F32.lit 700 100).
Definition TDS : Param :=
  mkParam "TDS" "ppm" (F32.of_Z 0) (F32.of_Z 1008) (F32.of_Z 1) 2 (F32.of_Z 500).
Definition TSS : Param :=
  mkParam "TSS" "NTU" (F32.of_Z 0) (F32.of_Z 1000) (F32.of_Z 1) 3 (F32.of_Z 100).
Definition COD : Param :=
  mkParam "COD" "mg/L" (F32.of_Z 0) (F32.of_Z 1300) (F32.of_Z 1) 4 (F32.of_Z 200).
Definition BOD : Param :=
  mkParam "BOD" "mg/L" (F32.of_Z 0) (F32.of_Z 350) (F32.of_Z 1) 5 (F32.of_Z 50).
Definition DO : Param :=
  mkParam "DO" "mg/L" (F32.lit 0 100) (F32.lit 2000 100) (F32.lit 1 100) 6 (F32.lit 800 100).
Definition NH3N : Param :=
  mkParam "NH3-N" "mg/L" (F32.lit 0 100) (F32.of_Z 1000) (F32.lit 1 100) 7 (F32.lit 500 100).

Definition params0 : list Param := [pH; TDS; TSS; COD; BOD; DO; NH3N].

(** ** Register codec *)

(** Round half away from zero of [m * 2^e], the magnitude part of
    [lroundf]. *)
Definition round_half_away (m : positive) (e : Z) : Z :=
  if 0 <=? e then Z.pos m * 2 ^ e
  else (2 * Z.pos m + 2 ^ (- e)) / (2 * 2 ^ (- e)).

(** ** Serial configuration model *)

Record SerialCfg := mkSerialCfg {
  baud : Z;
  dataBits : Z;
  parity : ascii;
  stopBits : Z
}.

Definition scfg0 : SerialCfg := mkSerialCfg 9600 8 "N" 1.

Definition BAUDS : list Z := [1200; 2400; 4800; 9600; 19200; 38400; 57600; 115200].
Definition BAUD_COUNT : Z := Z.of_nat (length BAUDS).

Definition parity_order : list ascii := ["N"; "E"; "O"]%char.

Inductive SerialField := BAUD | PARITY | DATABITS | STOPBITS.

Definition SerialField_to_int (f : SerialField) : Z :=
  match f with BAUD => 0 | PARITY => 1 | DATABITS => 2 | STOPBITS => 3 end.

Definition SerialField_of_int (z : Z) : SerialField :=
  if z =? 0 then BAUD else if z =? 1 then PARITY
  else if z =? 2 then DATABITS else STOPBITS.

(** First position of [x] in [l], counted from [i]; the two search loops of
    the serial editor. *)
Fixpoint index_from {A} (eqb : A -> A -> bool) (x : A) (l : list A) (i : Z) : option Z :=
  match l with
  | [] => None
  | y :: l' => if eqb y x then Some i else index_from eqb x l' (i + 1)
  end.

(** The [for] loop over [BAUDS]: [idx] stays 0 when the baud is not listed. *)
Definition baud_index (b : Z) : Z := default 0 (index_from Z.eqb b BAUDS 0).

(** The [while] loop over [order]: [ci] stops at 3 when the parity is none
    of the three letters. *)
Definition parity_index (c : ascii) : Z := default 3 (index_from Ascii.eqb c parity_order 0).

Definition set_baud (c : SerialCfg) (v : Z) := mkSerialCfg v (dataBits c) (parity c) (stopBits c).
Definition set_dataBits (c : SerialCfg) (v : Z) := mkSerialCfg (baud c) v (parity c) (stopBits c).
Definition set_parity (c : SerialCfg) (v : ascii) := mkSerialCfg (baud c) (dataBits c) v (stopBits c).
Definition set_stopBits (c : SerialCfg) (v : Z) := mkSerialCfg (baud c) (dataBits c) (parity c) v.

(** The body of the [SERIAL_EDIT] case of the encoder switch, for a rotation
    [diff]. *)
Definition serial_edit (f : SerialField) (diff : Z) (c : SerialCfg) : SerialCfg :=
  let d := if diff >? 0 then 1 else -1 in
  match f with
  | BAUD =>
      let idx := clamp (baud_index (baud c) + d) 0 (BAUD_COUNT - 1) in
      set_baud c (nth (Z.to_nat idx) BAUDS 0)
  | PARITY =>
      let ci := (parity_index (parity c) + d + 3) mod 3 in
      set_parity c (nth (Z.to_nat ci) parity_order "N"%char)
  | DATABITS => set_dataBits c (if diff >? 0 then 8 else 7)
  | STOPBITS => set_stopBits c (if diff >? 0 then 2 else 1)
  end.

(** ** Application state *)

Inductive Screen := HOME | PARAM_LIST | PARAM_EDIT | SERIAL_MENU | SERIAL_EDIT.

(** Calls the core makes on its collaborators: the five screen-draw
    requests, a write of a holding register, a reinitialisation of the
    RS-485 link. *)
Inductive Effect :=
  | DrawHome
  | DrawParamList
  | DrawParamEdit
  | DrawSerialMenu
  | DrawSerialEdit
  | HregWrite (addr val : Z)
  | Rs485Reinit (cfg : SerialCfg).

(** The globals of the sketch, the holding registers kept by the Modbus
    object [mb], the static [tSync] of [loop], and the calls issued so far
    (oldest first). *)
Record State := mkState {
  screen : Screen;
  listIndex : Z;
  editIndex : Z;
  encPrev : Z;
  params : list Param;
  scfg : SerialCfg;
  serialField : SerialField;
  tSync : Z;
  hregs : gmap Z Z;
  trace : list Effect
}.

Definition set_screen (st : State) (v : Screen) : State :=
  mkState v (listIndex st) (editIndex st) (encPrev st) (params st) (scfg st)
          (serialField st) (tSync st) (hregs st) (trace st).
Definition set_listIndex (st : State) (v : Z) : State :=
  mkState (screen st) v (editIndex st) (encPrev st) (params st) (scfg st)
          (serialField st) (tSync st) (hregs st) (trace st).
Definition set_editIndex (st : State) (v : Z) : State :=
  mkState (screen st) (listIndex st) v (encPrev st) (params st) (scfg st)
          (serialField st) (tSync st) (hregs st) (trace st).
Definition set_encPrev (st : State) (v : Z) : State :=
  mkState (screen st) (listIndex st) (editIndex st) v (params st) (scfg st)
          (serialField st) (tSync st) (hregs st) (trace st).
Definition set_params (st : State) (v : list Param) : State :=
  mkState (screen st) (listIndex st) (editIndex st) (encPrev st) v (scfg st)
          (serialField st) (tSync st) (hregs st) (trace st).
Definition set_scfg (st : State) (v : SerialCfg) : State :=
  mkState (screen st) (listIndex st) (editIndex st) (encPrev st) (params st) v
          (serialField st) (tSync st) (hregs st) (trace st).
Definition set_serialField (st : State) (v : SerialField) : State :=
  mkState (screen st) (listIndex st) (editIndex st) (encPrev st) (params st) (scfg st)
          v (tSync st) (hregs st) (trace st).
Definition set_tSync (st : State) (v : Z) : State :=
  mkState (screen st) (listIndex st) (editIndex st) (encPrev st) (params st) (scfg st)
          (serialField st) v (hregs st) (trace st).
Definition set_hregs (st : State) (v : gmap Z Z) : State :=
  mkState (screen st) (listIndex st) (editIndex st) (encPrev st) (params st) (scfg st)
          (serialField st) (tSync st) v (trace st).
Definition emit (e : Effect) (st : State) : State :=
  mkState (screen st) (listIndex st) (editIndex st) (encPrev st) (params st) (scfg st)
          (serialField st) (tSync st) (hregs st) (trace st ++ [e]).

Definition PARAM_COUNT (st : State) : Z := Z.of_nat (length (params st)).

(** [params[i]]; an index outside the array is undefined behaviour in the
    source, and the embedding has no element there. *)
Definition param_at (st : State) (i : Z) : option Param :=
  if 0 <=? i then params st !! Z.to_nat i else None.

(** ** Register table of the Modbus object

    [mb.Hreg(a)] reads 0 for an address that was never added, and
    [mb.Hreg(a, v)] stores only into a register that exists; [mb.addHreg]
    creates a register unless the address is taken. *)

Definition Hreg_get (t : gmap Z Z) (a : Z) : Z := default 0 (t !! a).

Definition Hreg_set (t : gmap Z Z) (a v : Z) : gmap Z Z :=
  match t !! a with
  | Some _ => <[a := v]> t
  | None => t
  end.

Definition addHreg (t : gmap Z Z) (a v : Z) : gmap Z Z :=
  match t !! a with
  | Some _ => t
  | None => <[a := v]> t
  end.

Definition mb_Hreg_write (a v : Z) (st : State) : State :=
  emit (HregWrite a v) (set_hregs st (Hreg_set (hregs st) a v)).

Definition rs485Reinit (st : State) : State := emit (Rs485Reinit (scfg st)) st.

(** Inputs of one pass through [loop]: the register writes that [mb.task]
    serves for the remote master, what the two [Button2] objects report, the
    encoder positions read by a Select handler and by [loop] itself, and the
    two readings of [millis]. *)
Inductive SelectEvent := Pressed | LongClickDetected.

Record Tick := mkTick {
  remote : list (Z * Z);
  sel : option SelectEvent;
  back : bool;
  enc_handler : Z;
  enc_loop : Z;
  millis_test : Z;
  millis_stamp : Z
}.

(** C leaves the result of [lroundf] unspecified on a NaN, on an infinity
    and on a value whose rounding does not fit a [long].  The embedding
    takes that result from [lroundf_unspecified], about which nothing is
    assumed. *)
Class LroundfUnspecified := lroundf_unspecified : spec_float -> Z.

Section Program.

Context {U : LroundfUnspecified}.

Definition lroundf (x : spec_float) : Z :=
  match x with
  | S754_zero _ => 0
  | S754_finite s m e =>
      let r := round_half_away m e in
      let z := if s then - r else r in
      if (LONG_MIN <=? z) && (z <=? LONG_MAX) then z
      else lroundf_unspecified x
  | _ => lroundf_unspecified x
  end.

Definition toReg (p : Param) : Z :=
  let scaled := F32.div (value p) (step p) in
  let scaled := if F32.lt scaled F32.zero then F32.zero else scaled in
  to_uint16 (lroundf scaled).

Definition fromReg (p : Param) (regval : Z) : spec_float :=
  F32.mul (F32.of_Z regval) (step p).

(** *** Input handlers *)

Definition onSelect (encRead : Z) (st : State) : State :=
  match screen st with
  | HOME =>
      let st := set_screen st PARAM_LIST in
      let st := set_listIndex st 0 in
      let st := set_encPrev st encRead in
      emit DrawParamList st
  | PARAM_LIST =>
      let st := set_editIndex st (listIndex st) in
      let st := set_screen st PARAM_EDIT in
      let st := set_encPrev st encRead in
      emit DrawParamEdit st
  | PARAM_EDIT =>
      let st :=
        match param_at st (editIndex st) with
        | Some p => mb_Hreg_write (reg p) (toReg p) st
        | None => st
        end in
      let st := set_screen st PARAM_LIST in
      emit DrawParamList st
  | SERIAL_MENU =>
      let st := set_screen st SERIAL_EDIT in
      let st := set_encPrev st encRead in
      emit DrawSerialEdit st
  | SERIAL_EDIT =>
      let st := rs485Reinit st in
      let st := set_screen st SERIAL_MENU in
      emit DrawSerialMenu st
  end.

Definition onBack (st : State) : State :=
  match screen st with
  | HOME => emit DrawHome st
  | PARAM_LIST => emit DrawHome (set_screen st HOME)
  | PARAM_EDIT => emit DrawParamList (set_screen st PARAM_LIST)
  | SERIAL_MENU => emit DrawHome (set_screen st HOME)
  | SERIAL_EDIT => emit DrawSerialMenu (set_screen st SERIAL_MENU)
  end.

Definition onSelectLong (encRead : Z) (st : State) : State :=
  match screen st with
  | HOME =>
      let st := set_screen st SERIAL_MENU in
      let st := set_serialField st BAUD in
      let st := set_encPrev st encRead in
      emit DrawSerialMenu st
  | _ => st
  end.

(** *** Setup *)

Definition preload (st : State) (i : nat) : State :=
  match params st !! i with
  | Some p => set_hregs st (addHreg (hregs st) (reg p) (toReg p))
  | None => st
  end.

Definition setup (encRead : Z) : State :=
  let st := mkState HOME 0 0 0 params0 scfg0 BAUD 0 ∅ [] in
  let st := emit DrawHome st in
  let st := rs485Reinit st in
  let st := fold_left preload (seq 0 (length (params st))) st in
  set_encPrev st encRead.

(** *** The passes of [loop] *)

(** [mb.task()]: the writes of the remote master reach the table. *)
Definition mb_task (ws : list (Z * Z)) (st : State) : State :=
  set_hregs st (fold_left (fun t w => Hreg_set t (fst w) (to_uint16 (snd w))) ws (hregs st)).

Definition btnSelect_loop (tk : Tick) (st : State) : State :=
  match sel tk with
  | Some Pressed => onSelect (enc_handler tk) st
  | Some LongClickDetected => onSelectLong (enc_handler tk) st
  | None => st
  end.

Definition btnBack_loop (tk : Tick) (st : State) : State :=
  if back tk then onBack st else st.

(** The test that guards the assignment in the inbound loop. *)
Definition inbound_accepts (p : Param) (rv : Z) : bool :=
  F32.gt (F32.fabsf (F32.sub (fromReg p rv) (value p))) (F32.mul (step p) F32.half).

Definition inbound_redraw (i : nat) (st : State) : State :=
  match screen st with
  | HOME => emit DrawHome st
  | PARAM_LIST => emit DrawParamList st
  | PARAM_EDIT => if editIndex st =? Z.of_nat i then emit DrawParamEdit st else st
  | _ => st
  end.

(** One iteration of the loop "if a Modbus master wrote new values". *)
Definition inbound_step (st : State) (i : nat) : State :=
  match params st !! i with
  | Some p =>
      let rv := Hreg_get (hregs st) (reg p) in
      let newVal := fromReg p rv in
      if inbound_accepts p rv then
        let p' := set_value p (clampf newVal (minVal p) (maxVal p)) in
        inbound_redraw i (set_params st (<[i := p']> (params st)))
      else st
  | None => st
  end.

Definition sync_inbound (st : State) : State :=
  fold_left inbound_step (seq 0 (length (params st))) st.

(** The [PARAM_EDIT] case of the encoder switch on one parameter. *)
Definition edit_candidate (p : Param) (diff : Z) : spec_float :=
  let delta := if diff >? 0 then step p else F32.neg (step p) in
  clampf (F32.add (value p) delta) (minVal p) (maxVal p).

Definition edit_accepts (p : Param) (nv : spec_float) : bool :=
  F32.ge (F32.fabsf (F32.sub nv (value p))) (F32.mul (step p) F32.half).

Definition handle_encoder (now : Z) (st : State) : State :=
  if now =? encPrev st then st
  else
    let diff := to_long (now - encPrev st) in
    let st := set_encPrev st now in
    match screen st with
    | HOME => st
    | PARAM_LIST =>
        let ni := listIndex st + (if diff >? 0 then 1 else -1) in
        let ni := clamp ni 0 (PARAM_COUNT st - 1) in
        if ni =? listIndex st then st
        else emit DrawParamList (set_listIndex st ni)
    | PARAM_EDIT =>
        match param_at st (editIndex st) with
        | Some p =>
            let nv := edit_candidate p diff in
            if edit_accepts p nv then
              emit DrawParamEdit
                (set_params st (<[Z.to_nat (editIndex st) := set_value p nv]> (params st)))
            else st
        | None => st
        end
    | SERIAL_MENU =>
        let fi := SerialField_to_int (serialField st) + (if diff >? 0 then 1 else -1) in
        let fi := clamp fi 0 3 in
        if fi =? SerialField_to_int (serialField st) then st
        else emit DrawSerialMenu (set_serialField st (SerialField_of_int fi))
    | SERIAL_EDIT =>
        emit DrawSerialEdit (set_scfg st (serial_edit (serialField st) diff (scfg st)))
    end.

(** One iteration of the loop that keeps the registers synced. *)
Definition outbound_step (st : State) (i : nat) : State :=
  match params st !! i with
  | Some p =>
      let cur := Hreg_get (hregs st) (reg p) in
      let need := toReg p in
      if cur =? need then st else mb_Hreg_write (reg p) need st
  | None => st
  end.

Definition outbound_pass (st : State) : State :=
  fold_left outbound_step (seq 0 (length (params st))) st.

Definition outbound_due (ms : Z) (st : State) : bool :=
  to_uint32 (ms - tSync st) >? 300.

Definition sync_outbound (ms_test ms_stamp : Z) (st : State) : State :=
  if outbound_due ms_test st then outbound_pass (set_tSync st ms_stamp)
  else st.

Definition loop (tk : Tick) (st : State) : State :=
  let st := mb_task (remote tk) st in
  let st := btnSelect_loop tk st in
  let st := btnBack_loop tk st in
  let st := sync_inbound st in
  let st := handle_encoder (enc_loop tk) st in
  sync_outbound (millis_test tk) (millis_stamp tk) st.

(** Successive passes through [loop]. *)
Definition run (tks : list Tick) (st : State) : State :=
  fold_left (fun s tk => loop tk s) tks st.

End Program.


(** ** Notions used in the statements *)

Definition in_bounds (p : Param) : bool :=
  F32.le (minVal p) (value p) && F32.le (value p) (maxVal p).

(** The invariant of the parameter store: ordered bounds, value within. *)
Definition param_ok (p : Param) : Prop :=
  F32.le (minVal p) (maxVal p) = true /\ in_bounds p = true.

(** The midpoint of a parameter's range. *)
Definition midpoint (p : Param) : spec_float :=
  F32.div (F32.add (minVal p) (maxVal p)) (F32.of_Z 2).

Section Notions.

Context {U : LroundfUnspecified}.

(** The round-trip test of one probe value: the decoded encoding is less
    than a step away. *)
Definition roundtrip_close (p : Param) (v : spec_float) : bool :=
  let q := set_value p v in
  F32.lt (F32.fabsf (F32.sub (fromReg q (toReg q)) v)) (step p).

(** What the inbound loop leaves in [params[i]] when the table is [t]. *)
Definition inbound_param (t : gmap Z Z) (p : Param) : Param :=
  let rv := Hreg_get t (reg p) in
  if inbound_accepts p rv
  then set_value p (clampf (fromReg p rv) (minVal p) (maxVal p))
  else p.

(** The register writes the outbound loop issues when the table is [t]. *)
Definition outbound_stale (t : gmap Z Z) (p : Param) : bool :=
  negb (Hreg_get t (reg p) =? toReg p).

Definition outbound_writes (t : gmap Z Z) (ps : list Param) : list Effect :=
  map (fun p => HregWrite (reg p) (toReg p)) (filter (fun p => outbound_stale t p = true) ps).

(** The state in which the two sync passes of a tick start. *)
Definition pre_sync (tk : Tick) (st : State) : State :=
  btnBack_loop tk (btnSelect_loop tk (mb_task (remote tk) st)).

End Notions.

(** Everything but the parameter values and the calls issued is the same. *)
Definition same_controls (st st' : State) : Prop :=
  screen st' = screen st /\ listIndex st' = listIndex st /\
  editIndex st' = editIndex st /\ encPrev st' = encPrev st /\
  scfg st' = scfg st /\ serialField st' = serialField st /\
  tSync st' = tSync st.

(** ** Concrete inputs on which the model is run *)

(** An [lroundf] that answers 0 wherever C leaves it open. *)
Definition lroundf_zero : LroundfUnspecified := fun _ => 0.

Definition st_boot : State := @setup lroundf_zero 0.

(** The booted state with TDS at 500.5 and 501 in its register. *)
Definition st_tie : State :=
  set_hregs (set_params st_boot (<[1%nat := set_value TDS (F32.lit 1001 2)]> params0))
            (<[2 := 501]> (hregs st_boot)).

(** The booted state with 2000 written to the register of pH, the editor
    open on pH, and pH at 13.99. *)
Definition st_edit : State :=
  let st := set_params st_boot (<[0%nat := set_value pH (F32.lit 1399 100)]> params0) in
  let st := set_hregs st (<[1 := 2000]> (hregs st_boot)) in
  set_screen st PARAM_EDIT.

(** The booted state with the editor open on TDS, and TDS at 1007.75, a
    quarter of a step below its [maxVal]. *)
Definition st_near : State :=
  let st := set_params st_boot (<[1%nat := set_value TDS (F32.lit 4031 4)]> params0) in
  set_editIndex (set_screen st PARAM_EDIT) 1.

(** The booted state with the serial editor open on the baud. *)
Definition st_serial : State := set_screen st_boot SERIAL_EDIT.

(** Ticks at clock [ms]: the remote master has written [v] to register [a];
    Select is pressed with the encoder at [pos]; the encoder has moved to
    [pos]. *)
Definition tk_remote (a v ms : Z) : Tick := mkTick [(a, v)] None false 0 0 ms ms.
Definition tk_select (pos ms : Z) : Tick := mkTick [] (Some Pressed) false pos pos ms ms.
Definition tk_rotate (pos ms : Z) : Tick := mkTick [] None false pos pos ms ms.

(** A session on the booted device, with the outbound pass due in every
    tick: the master writes 32258 to the register of NH3-N, Select opens
    the list, six detents move the cursor to NH3-N, Select opens the
    editor, and 511 detents raise the value.  Then the master writes
    32769. *)
Definition drift_ticks : list Tick :=
  [tk_remote 7 32258 301; tk_select 0 602]
  ++ map (fun k => tk_rotate (Z.of_nat k) (301 * (2 + Z.of_nat k))) (seq 1 6)
  ++ [tk_select 6 2709]
  ++ map (fun k => tk_rotate (6 + Z.of_nat k) (301 * (9 + Z.of_nat k))) (seq 1 511).

Definition st_drift : State := @run lroundf_zero drift_ticks st_boot.

Definition tk_drift : Tick := mkTick [(7, 32769)] None false 517 517 157000 157000.

(** ** The rest of the sketch: UART mode selection *)

Section UartModes.

(** The twelve [SERIAL_*] mode words of the Arduino core that
    [parityToMode] chooses from; their values are not part of the sketch. *)
Variable SERIAL_7N1 SERIAL_7N2 SERIAL_7E1 SERIAL_7E2 SERIAL_7O1 SERIAL_7O2 : Z.
Variable SERIAL_8N1 SERIAL_8N2 SERIAL_8E1 SERIAL_8E2 SERIAL_8O1 SERIAL_8O2 : Z.

Definition parityToMode (p : ascii) (databits stopbits : Z) : Z :=
  if databits =? 7 then
    if Ascii.eqb p "E" then (if stopbits =? 2 then SERIAL_7E2 else SERIAL_7E1)
    else if Ascii.eqb p "O" then (if stopbits =? 2 then SERIAL_7O2 else SERIAL_7O1)
    else (if stopbits =? 2 then SERIAL_7N2 else SERIAL_7N1)
  else
    if Ascii.eqb p "E" then (if stopbits =? 2 then SERIAL_8E2 else SERIAL_8E1)
    else if Ascii.eqb p "O" then (if stopbits =? 2 then SERIAL_8O2 else SERIAL_8O1)
    else (if stopbits =? 2 then SERIAL_8N2 else SERIAL_8N1).

Definition mode_words : list Z :=
  [SERIAL_7N1; SERIAL_7N2; SERIAL_7E1; SERIAL_7E2; SERIAL_7O1; SERIAL_7O2;
   SERIAL_8N1; SERIAL_8N2; SERIAL_8E1; SERIAL_8E2; SERIAL_8O1; SERIAL_8O2].

End UartModes.

(** ** Further notions used in the statements *)

(** Position in [mode_words] of the word [parityToMode] returns. *)
Definition mode_index (p : ascii) (databits stopbits : Z) : nat :=
  Nat.add (Nat.add (if databits =? 7 then 0%nat else 6%nat)
                   (if Ascii.eqb p "E" then 2%nat else if Ascii.eqb p "O" then 4%nat else 0%nat))
          (if stopbits =? 2 then 1%nat else 0%nat).

(** A serial configuration within the four choice sets. *)
Definition valid_cfg (c : SerialCfg) : Prop :=
  In (baud c) BAUDS /\ (dataBits c = 7 \/ dataBits c = 8) /\
  In (parity c) parity_order /\ (stopBits c = 1 \/ stopBits c = 2).

(** A parameter without its value: what the sketch never assigns. *)
Definition static (p : Param) : Param := set_value p F32.zero.

(** Both cursors point into the parameter array. *)
Definition cursors_valid (st : State) : Prop :=
  0 <= listIndex st < PARAM_COUNT st /\ 0 <= editIndex st < PARAM_COUNT st.

(** [f] holds on 0, 1, ..., [n] - 1. *)
Definition all_below (f : Z -> bool) (n : positive) : bool :=
  fst (Pos.iter (fun bk => (fst bk && f (snd bk), snd bk + 1)) (true, 0) n).

Section CodecNotions.

Context {U : LroundfUnspecified}.

(** The largest raw value of a parameter: the encoding of [maxVal], or
    65535 where that does not fit the register. *)
Definition raw_limit (p : Param) : Z :=
  Z.min 65535 (lroundf (F32.div (maxVal p) (step p))).

(** Decoding [rv] gives a value within bounds that encodes as [rv]. *)
Definition roundtrip_raw (p : Param) (rv : Z) : bool :=
  (toReg (set_value p (fromReg p rv)) =? rv) && in_bounds (set_value p (fromReg p rv)).

End CodecNotions.

(** Every entry of the table is a 16-bit value. *)
Definition table16 (t : gmap Z Z) : Prop :=
  forall a v, t !! a = Some v -> 0 <= v < 65536.

(** The table of [st'] has the addresses of the table of [st] and is 16-bit
    if that one is. *)
Definition table_kept (st st' : State) : Prop :=
  dom (hregs st') = dom (hregs st) /\ (table16 (hregs st) -> table16 (hregs st')).

(** The calls issued between two states are [l]. *)
Definition calls (st st' : State) (l : list Effect) : Prop :=
  trace st' = trace st ++ l.

Definition is_draw (e : Effect) : Prop :=
  match e with
  | DrawHome | DrawParamList | DrawParamEdit | DrawSerialMenu | DrawSerialEdit => True
  | _ => False
  end.

Definition is_write (e : Effect) : Prop :=
  match e with HregWrite _ _ => True | _ => False end.

(** The redraw the inbound loop issues for [params[i]] on the screen of
    [st]. *)
Definition inbound_calls (st : State) (i : nat) (p : Param) : list Effect :=
  if inbound_accepts p (Hreg_get (hregs st) (reg p)) then
    match screen st with
    | HOME => [DrawHome]
    | PARAM_LIST => [DrawParamList]
    | PARAM_EDIT => if editIndex st =? Z.of_nat i then [DrawParamEdit] else []
    | _ => []
    end
  else [].

(** ** Further concrete inputs *)

(** The booted state on the parameter list, on the serial menu, and in the
    editor on pH (at 7.00, register 700). *)
Definition st_list : State := set_screen st_boot PARAM_LIST.
Definition st_menu : State := set_screen st_boot SERIAL_MENU.
Definition st_editing : State := set_screen st_boot PARAM_EDIT.

(** ** binary32 values and the pinning of decoded candidates *)

(** [spec_float] has more inhabitants than binary32 has values: a mantissa
    of any length at any exponent.  The values of the format are those
    [valid_binary] accepts, and every [float] of the source is one. *)
Definition binary32 (x : spec_float) : bool := valid_binary F32.prec F32.emax x.

(** The magnitude [m * 2^e] in units of 2^-149, the spacing of the
    subnormal numbers. *)
Definition fixed (m : positive) (e : Z) : Z := Z.shiftl (Z.pos m) (e + 149).

(** [lo] is a zero and the positive [c] lies above the positive [hi] by at
    least the power of two above the positive [h]. *)
Definition clear_above (lo hi h c : spec_float) : bool :=
  match lo, hi, h, c with
  | S754_zero _, S754_finite false mM eM, S754_finite false mh eh, S754_finite false mc ec =>
      bounded F32.prec F32.emax mM eM && (-150 <=? eh) && (eh <? ec) && (-149 <=? ec) &&
      (fixed mM eM + Z.shiftl 1 (eh + 173) <=? fixed mc ec)
  | _, _, _, _ => false
  end.

(** The candidate decoded from [rv] is a binary32 value, is not below
    [minVal], and is either not above [maxVal] or clear of it by more than
    half a step. *)
Definition pin_check (p : Param) (rv : Z) : bool :=
  let c := fromReg p rv in
  binary32 c && negb (F32.lt c (minVal p)) &&
  (negb (F32.gt c (maxVal p)) ||
   clear_above (minVal p) (maxVal p) (F32.mul (step p) F32.half) c).

(** From this raw value on, the candidate has a larger exponent than
    [maxVal]. *)
Definition pin_limit (p : Param) : Z :=
  match maxVal p, step p with
  | S754_finite _ _ eM, S754_finite _ _ es => Z.min 65536 (2 ^ (eM - es + 1))
  | _, _ => 65536
  end.

(** The shape of a parameter of the table: [minVal] a zero, [maxVal] and
    [step] positive binary32 numbers, the step normal, and the power of two
    above [maxVal] clear of it by more than half a step. *)
Definition pin_side (p : Param) : bool :=
  match minVal p, maxVal p, step p, F32.mul (step p) F32.half with
  | S754_zero _, S754_finite false mM eM, S754_finite false ms es, S754_finite false mh eh =>
      bounded F32.prec F32.emax mM eM && bounded F32.prec F32.emax ms es &&
      (Z.pos (digits2_pos ms) =? 24) && (es <=? 0) &&
      (-150 <=? eh) && (eh <=? eM) && (0 <=? eM - es + 1) &&
      (fixed mM eM + Z.shiftl 1 (eh + 173) <=? Z.shiftl 1 (eM + 173))
  | _, _, _, _ => false
  end.

(** ** One pass through [loop], parameter by parameter *)

(** Select is handled in this pass with the editor open on [params[i]]:
    [onSelect] then writes the encoding of the local value to the register
    of that parameter. *)
Definition select_saves (tk : Tick) (st : State) (i : nat) : bool :=
  match sel tk, screen st with
  | Some Pressed, PARAM_EDIT => editIndex st =? Z.of_nat i
  | _, _ => false
  end.

(** What the encoder switch leaves in [params[i]] when it held [p]. *)
Definition rotary_param (now : Z) (st : State) (i : nat) (p : Param) : Param :=
  match screen st with
  | PARAM_EDIT =>
      let nv := edit_candidate p (to_long (now - encPrev st)) in
      if negb (now =? encPrev st) && (editIndex st =? Z.of_nat i) && edit_accepts p nv
      then set_value p nv else p
  | _ => p
  end.

(** A pass in which neither button fires. *)
Definition no_button (tk : Tick) : Prop := sel tk = None /\ back tk = false.

(** ** Further sessions on the booted device *)

(** The outbound pass is due in every tick.  The master writes 7 to the
    register of pH, two Select presses open the editor on pH, and seven
    detents down bring the value to 2^-27.  Then an eighth detent down. *)
Definition low_ticks : list Tick :=
  [tk_remote 1 7 301; tk_select 0 602; tk_select 0 903]
  ++ map (fun k => tk_rotate (- Z.of_nat k) (301 * (3 + Z.of_nat k))) (seq 1 7).

Definition st_low : State := @run lroundf_zero low_ticks st_boot.

Definition tk_low : Tick := tk_rotate (-8) 3311.

(** Two Select presses open the editor on pH, at 7.00 with 700 in its
    register.  Then the master writes 650 and Select is pressed again. *)
Definition st_opened : State :=
  @run lroundf_zero [tk_select 0 301; tk_select 0 602] st_boot.

Definition tk_save : Tick := mkTick [(1, 650)] (Some Pressed) false 0 0 903 903.

(** The master writes 1400 to the register of pH, which takes 14.00, its
    [maxVal].  Then the master writes 2000. *)
Definition st_top : State := @run lroundf_zero [tk_remote 1 1400 301] st_boot.

Definition tk_over : Tick := tk_remote 1 2000 602.

(** The long click of Select is detected, with the encoder at [pos]. *)
Definition tk_long (pos ms : Z) : Tick :=
  mkTick [] (Some LongClickDetected) false pos pos ms ms.

(** * Properties *)

(** ** Order of binary32 values *)

Section FloatOrder.

Ltac cmp_split :=
  repeat match goal with
  | |- context [Pos.compare_cont Eq ?a ?b] =>
      change (Pos.compare_cont Eq a b) with (Pos.compare a b)
  | H : context [Pos.compare_cont Eq ?a ?b] |- _ =>
      change (Pos.compare_cont Eq a b) with (Pos.compare a b) in H
  | H : context [Z.compare ?a ?b] |- _ => destruct (Z.compare_spec a b)
  | H : context [Pos.compare ?a ?b] |- _ => destruct (Pos.compare_spec a b)
  | |- context [Z.compare ?a ?b] => destruct (Z.compare_spec a b)
  | |- context [Pos.compare ?a ?b] => destruct (Pos.compare_spec a b)
  end.

Ltac float_cases :=
  unfold F32.lt, F32.gt, F32.le, F32.ge, SFltb, SFleb, SFcompare;
  repeat match goal with
  | x : spec_float |- _ => destruct x
  | b : bool |- _ => destruct b
  end; simpl; try congruence; try tauto.

Lemma le_refl x : F32.is_nan x = false -> F32.le x x = true.
Proof.
  float_cases; intros _; cmp_split; subst; simpl; try reflexivity; lia.
Qed.

Lemma not_lt_le x y :
  F32.is_nan x = false -> F32.is_nan y = false ->
  F32.lt x y = false -> F32.le y x = true.
Proof.
  float_cases; intros _ _; cmp_split; subst; simpl; try congruence; lia.
Qed.

Lemma le_not_nan x y : F32.le x y = true -> F32.is_nan x = false /\ F32.is_nan y = false.
Proof. float_cases. Qed.

Lemma lt_not_nan x y : F32.lt x y = true -> F32.is_nan x = false /\ F32.is_nan y = false.
Proof. float_cases. Qed.

Lemma lt_le_not_lt a b c :
  F32.lt a b = true -> F32.le c a = true -> F32.lt b c = false.
Proof.
  float_cases; intros; cmp_split; subst; simpl in *; try congruence; try lia.
Qed.

Lemma le_not_gt a b : F32.le a b = true -> F32.gt a b = false.
Proof.
  float_cases; intros; cmp_split; subst; simpl in *; try congruence; try lia.
Qed.

Lemma sub_not_nan x y :
  F32.is_nan (F32.sub x y) = false -> F32.is_nan x = false /\ F32.is_nan y = false.
Proof. destruct x, y; simpl; intros; split; congruence. Qed.

Lemma fabsf_not_nan x : F32.is_nan (F32.fabsf x) = false -> F32.is_nan x = false.
Proof. destruct x; simpl; congruence. Qed.

End FloatOrder.

(** ** [clampf] *)

Section Clampf.

Lemma clampf_in_range v lo hi :
  F32.le lo hi = true -> F32.is_nan (clampf v lo hi) = false ->
  F32.le lo (clampf v lo hi) = true /\ F32.le (clampf v lo hi) hi = true.
Proof.
  intros Hb. destruct (le_not_nan _ _ Hb) as [Hlo Hhi].
  unfold clampf. destruct (F32.lt v lo) eqn:E1.
  - intros _. split; [now apply le_refl | exact Hb].
  - unfold F32.gt. destruct (SFltb hi v) eqn:E2.
    + intros _. split; [exact Hb | now apply le_refl].
    + intros Hv. split; now apply not_lt_le.
Qed.

Lemma clampf_above v lo hi :
  F32.le lo hi = true -> F32.gt v hi = true -> clampf v lo hi = hi.
Proof.
  intros Hb Hv. unfold clampf.
  rewrite (lt_le_not_lt hi v lo Hv Hb). now rewrite Hv.
Qed.

Lemma clampf_below v lo hi : F32.lt v lo = true -> clampf v lo hi = lo.
Proof. intros Hv. unfold clampf. now rewrite Hv. Qed.

End Clampf.

(** ** Rounding in binary32 *)

Section Rounding.

Lemma digits2_log2 m : Z.pos (digits2_pos m) = Z.log2 (Z.pos m) + 1.
Proof.
  induction m as [m IH | m IH |]; simpl digits2_pos; [ | | reflexivity];
    rewrite Pos2Z.inj_succ, IH.
  - rewrite Pos2Z.inj_xI, Z.log2_succ_double by lia. lia.
  - rewrite Pos2Z.inj_xO, Z.log2_double by lia. lia.
Qed.

Lemma digits2_bounds m :
  2 ^ (Z.pos (digits2_pos m) - 1) <= Z.pos m < 2 ^ Z.pos (digits2_pos m).
Proof.
  rewrite digits2_log2. replace (Z.log2 (Z.pos m) + 1 - 1) with (Z.log2 (Z.pos m)) by lia.
  apply Z.log2_spec. lia.
Qed.

Lemma digits2_unique m d :
  2 ^ (d - 1) <= Z.pos m < 2 ^ d -> Z.pos (digits2_pos m) = d.
Proof.
  intros H. rewrite digits2_log2.
  assert (0 <= d - 1).
  { destruct (Z.le_gt_cases 1 d) as [|Hn]; [lia|].
    assert (2 ^ d <= 2 ^ 0) by (apply Z.pow_le_mono_r; lia).
    change (2 ^ 0) with 1 in *. lia. }
  rewrite (Z.log2_unique (Z.pos m) (d - 1)); [lia | lia |].
  replace (Z.succ (d - 1)) with d by lia. exact H.
Qed.

Lemma digits2_shift m k n :
  0 <= k -> Z.pos n = Z.pos m * 2 ^ k ->
  Z.pos (digits2_pos n) = Z.pos (digits2_pos m) + k.
Proof.
  intros Hk Hn. apply digits2_unique. rewrite Hn.
  destruct (digits2_bounds m) as [Hlo Hhi].
  assert (0 < 2 ^ k) by (apply Z.pow_pos_nonneg; lia).
  assert (1 <= Z.pos (digits2_pos m)) by lia.
  replace (Z.pos (digits2_pos m) + k - 1) with (Z.pos (digits2_pos m) - 1 + k) by lia.
  rewrite !Z.pow_add_r by lia. split.
  - apply Z.mul_le_mono_nonneg_r; lia.
  - apply Z.mul_lt_mono_pos_r; lia.
Qed.

(** The product of two mantissas of 24 digits has 47 or 48. *)
Lemma digits2_mul a b :
  Z.pos (digits2_pos a) = 24 -> Z.pos (digits2_pos b) = 24 ->
  47 <= Z.pos (digits2_pos (a * b)) <= 48.
Proof.
  intros Ha Hb.
  destruct (digits2_bounds a) as [A1 A2], (digits2_bounds b) as [B1 B2],
           (digits2_bounds (a * b)) as [C1 C2].
  rewrite Ha in A1, A2. rewrite Hb in B1, B2.
  change (2 ^ (24 - 1)) with 8388608 in *. change (2 ^ 24) with 16777216 in *.
  rewrite Pos2Z.inj_mul in C1, C2.
  assert (L : 2 ^ 46 <= Z.pos a * Z.pos b).
  { change (2 ^ 46) with (8388608 * 8388608). apply Z.mul_le_mono_nonneg; lia. }
  assert (R : Z.pos a * Z.pos b < 2 ^ 48).
  { change (2 ^ 48) with (16777216 * 16777216). apply Z.mul_lt_mono_nonneg; lia. }
  split.
  - destruct (Z.le_gt_cases 47 (Z.pos (digits2_pos (a * b)))) as [|G]; [assumption|].
    assert (2 ^ Z.pos (digits2_pos (a * b)) <= 2 ^ 46) by (apply Z.pow_le_mono_r; lia).
    lia.
  - destruct (Z.le_gt_cases (Z.pos (digits2_pos (a * b))) 48) as [|G]; [assumption|].
    assert (2 ^ 48 <= 2 ^ (Z.pos (digits2_pos (a * b)) - 1)) by (apply Z.pow_le_mono_r; lia).
    lia.
Qed.

Lemma shr_1_m r : 0 <= shr_m r -> shr_m (shr_1 r) = Z.div2 (shr_m r).
Proof. destruct r as [[|[p|p|]|p] r s]; simpl; intros; try reflexivity; lia. Qed.

Lemma iter_shr_m n : forall r, 0 <= shr_m r ->
  shr_m (SpecFloat.iter_pos shr_1 n r) = Z.shiftr (shr_m r) (Z.pos n).
Proof.
  assert (Hd : forall r, 0 <= shr_m r -> 0 <= shr_m (shr_1 r)).
  { intros r Hr. rewrite shr_1_m by assumption. now apply Z.div2_nonneg. }
  induction n as [n IH | n IH |]; intros r Hr; simpl SpecFloat.iter_pos.
  - rewrite IH, IH, shr_1_m by (try rewrite IH; try apply Z.shiftr_nonneg; auto).
    rewrite Z.div2_spec, !Z.shiftr_shiftr by lia. f_equal. lia.
  - rewrite IH, IH by (try rewrite IH; try apply Z.shiftr_nonneg; auto).
    rewrite Z.shiftr_shiftr by lia. f_equal. lia.
  - rewrite shr_1_m by assumption. apply Z.div2_spec.
Qed.

Lemma shr_spec r e n : 0 <= shr_m r -> 0 <= n ->
  snd (shr r e n) = e + n /\ shr_m (fst (shr r e n)) = shr_m r / 2 ^ n.
Proof.
  intros Hr Hn. unfold shr. destruct n as [|n|n]; simpl fst; simpl snd.
  - split; [lia|]. now rewrite Z.div_1_r.
  - split; [reflexivity|]. rewrite iter_shr_m by assumption.
    now rewrite Z.shiftr_div_pow2.
  - lia.
Qed.

Lemma shl_align_spec m e e' :
  snd (shl_align m e e') = Z.min e e' /\
  Z.pos (fst (shl_align m e e')) = Z.pos m * 2 ^ (e - Z.min e e').
Proof.
  unfold shl_align. destruct (e' - e) as [|d|d] eqn:E; simpl fst; simpl snd.
  - replace (e - Z.min e e') with 0 by lia. split; lia.
  - replace (e - Z.min e e') with 0 by lia. split; lia.
  - split; [lia|].
    change (Pos.iter xO m d) with (shift_pos d m).
    rewrite shift_pos_correct. change (Z.pow_pos 2 d) with (2 ^ Z.pos d).
    replace (e - Z.min e e') with (Z.pos d) by lia. lia.
Qed.

Lemma round_nearest_even_bounds m l :
  m <= round_nearest_even m l <= m + 1.
Proof.
  unfold round_nearest_even. destruct l as [|[]]; try destruct (Z.even m); lia.
Qed.

(** What [binary_round_aux] returns for a mantissa of at least 24 digits
    in the range of the normal numbers: a mantissa of exactly 24 digits at
    the exponent of the format or one above, or an infinity when that
    exponent is too large. *)
Lemma binary_round_aux_normal s m e l :
  let fe := Z.pos (digits2_pos m) + e - 24 in
  -149 <= fe -> e <= fe ->
  exists m' e', fe <= e' <= fe + 1 /\ Z.pos (digits2_pos m') = 24 /\
    binary_round_aux 24 128 s (Z.pos m) e l =
      if e' <=? 104 then S754_finite s m' e' else S754_infinity s.
Proof.
  intros fe Hfe He. unfold binary_round_aux.
  assert (Hx : forall x, -149 <= x - 24 -> fexp 24 128 x = x - 24).
  { intros x Hx. unfold fexp, emin. lia. }
  destruct (shr_fexp 24 128 (Z.pos m) e l) as [r1 e1] eqn:E1.
  unfold shr_fexp in E1. simpl Zdigits2 in E1.
  rewrite Hx in E1 by (fold fe; lia). fold fe in E1.
  destruct (shr_spec (shr_record_of_loc (Z.pos m) l) e (fe - e)) as [Hs1 Hm1];
    [destruct l as [|[]]; simpl; lia | lia |].
  rewrite E1 in Hs1, Hm1. simpl in Hs1, Hm1.
  assert (He1 : e1 = fe) by lia. clear Hs1 E1. subst e1.
  assert (Hm : shr_m (shr_record_of_loc (Z.pos m) l) = Z.pos m)
    by (destruct l as [|[]]; reflexivity).
  rewrite Hm in Hm1.
  destruct (digits2_bounds m) as [Hlo Hhi].
  set (d := Z.pos (digits2_pos m)) in *.
  assert (Hn : fe - e = d - 24) by (unfold fe; lia).
  rewrite Hn in Hm1.
  assert (Hr1 : 2 ^ 23 <= shr_m r1 < 2 ^ 24).
  { rewrite Hm1. split.
    - apply Z.div_le_lower_bound; [apply Z.pow_pos_nonneg; lia|].
      rewrite <- Z.pow_add_r by lia. now replace (d - 24 + 23) with (d - 1) by lia.
    - apply Z.div_lt_upper_bound; [apply Z.pow_pos_nonneg; lia|].
      rewrite <- Z.pow_add_r by lia. now replace (d - 24 + 24) with d by lia. }
  pose proof (round_nearest_even_bounds (shr_m r1) (loc_of_shr_record r1)) as Hr.
  remember (round_nearest_even (shr_m r1) (loc_of_shr_record r1)) as m2 eqn:Em2.
  clear Em2. destruct m2 as [|p2|p2]; [lia | | lia].
  destruct (Z.eq_dec (Z.pos p2) (2 ^ 24)) as [Htop | Htop].
  - (* the carry: one more shift *)
    assert (Hd2 : Z.pos (digits2_pos p2) = 25).
    { apply digits2_unique. rewrite Htop. split; [lia|]. now apply Z.pow_lt_mono_r. }
    unfold shr_fexp. simpl Zdigits2. rewrite Hd2.
    rewrite Hx by lia. replace (25 + fe - 24 - fe) with 1 by lia.
    assert (Hp2 : p2 = 16777216%positive) by lia. subst p2.
    cbn [shr_record_of_loc shr SpecFloat.iter_pos shr_1 shr_m].
    change (128 - 24) with 104.
    exists 8388608%positive, (fe + 1). split; [lia|]. split; reflexivity.
  - assert (Hd2 : Z.pos (digits2_pos p2) = 24).
    { apply digits2_unique. simpl Z.sub. lia. }
    unfold shr_fexp. simpl Zdigits2. rewrite Hd2.
    rewrite Hx by lia. replace (24 + fe - 24 - fe) with 0 by lia.
    cbn [shr_record_of_loc shr shr_m].
    change (128 - 24) with 104.
    exists p2, fe. split; [lia|]. split; [exact Hd2 | reflexivity].
Qed.

Lemma binary_round_normal s m e :
  let fe := Z.pos (digits2_pos m) + e - 24 in
  -149 <= fe ->
  exists m' e', fe <= e' <= fe + 1 /\ Z.pos (digits2_pos m') = 24 /\
    binary_round 24 128 s m e =
      if e' <=? 104 then S754_finite s m' e' else S754_infinity s.
Proof.
  intros fe Hfe. unfold binary_round.
  assert (Hx : fexp 24 128 (Z.pos (digits2_pos m) + e) = fe).
  { unfold fexp, emin. fold fe. lia. }
  rewrite Hx.
  destruct (shl_align_spec m e fe) as [He Hm].
  destruct (shl_align m e fe) as [mz ez]. simpl in He, Hm. subst ez.
  pose proof (digits2_shift m (e - Z.min e fe) mz ltac:(lia) Hm) as Hd.
  assert (Hfz : Z.pos (digits2_pos mz) + Z.min e fe - 24 = fe) by (unfold fe in *; lia).
  pose proof (binary_round_aux_normal s mz (Z.min e fe) loc_Exact) as H.
  cbv zeta in H. rewrite Hfz in H. apply H; lia.
Qed.

(** Below the normal range an exact sum or difference of binary32 values
    is a subnormal number. *)
Lemma binary_round_subnormal s m e :
  -149 <= e -> Z.pos (digits2_pos m) + e - 24 < -149 ->
  exists m', Z.pos (digits2_pos m') < 24 /\
    binary_round 24 128 s m e = S754_finite s m' (-149).
Proof.
  intros He Hd. unfold binary_round.
  assert (Hx : forall x, x - 24 <= -149 -> fexp 24 128 x = -149).
  { intros x Hx. unfold fexp, emin. lia. }
  rewrite Hx by lia.
  destruct (shl_align_spec m e (-149)) as [Hs Hm].
  destruct (shl_align m e (-149)) as [mz ez]. simpl in Hs, Hm.
  replace (Z.min e (-149)) with (-149) in Hs, Hm by lia. subst ez.
  pose proof (digits2_shift m (e - -149) mz ltac:(lia) Hm) as Hdz.
  unfold binary_round_aux, shr_fexp. simpl Zdigits2.
  rewrite Hx by lia. change (-149 - -149) with 0.
  cbn [shr shr_record_of_loc loc_of_shr_record round_nearest_even shr_m].
  simpl Zdigits2. rewrite Hx by lia. change (-149 - -149) with 0.
  cbn [shr shr_record_of_loc shr_m].
  exists mz. split; [lia | reflexivity].
Qed.

Lemma bounded_facts m e :
  bounded 24 128 m e = true ->
  -149 <= e <= 104 /\ Z.pos (digits2_pos m) <= 24 /\
  (-149 < e -> Z.pos (digits2_pos m) = 24).
Proof.
  unfold bounded, canonical_mantissa, fexp, emin.
  rewrite andb_true_iff, Z.eqb_eq, Z.leb_le. lia.
Qed.

Lemma bounded_normal m e :
  Z.pos (digits2_pos m) = 24 -> -149 <= e <= 104 -> bounded 24 128 m e = true.
Proof.
  intros Hd He. unfold bounded, canonical_mantissa, fexp, emin.
  rewrite andb_true_iff, Z.eqb_eq, Z.leb_le, Hd. lia.
Qed.

Lemma binary_round_binary32 s m e :
  -149 <= e -> binary32 (binary_round 24 128 s m e) = true.
Proof.
  intros He.
  destruct (Z.le_gt_cases (-149) (Z.pos (digits2_pos m) + e - 24)) as [Hn | Hs].
  - destruct (binary_round_normal s m e Hn) as (m' & e' & Hb & Hd & ->).
    destruct (Z.leb_spec e' 104); [|reflexivity].
    apply bounded_normal; [exact Hd | lia].
  - destruct (binary_round_subnormal s m e He Hs) as (m' & Hd & ->).
    unfold binary32, valid_binary, bounded, canonical_mantissa, fexp, emin, F32.prec, F32.emax.
    rewrite andb_true_iff, Z.eqb_eq, Z.leb_le. lia.
Qed.

Lemma binary_normalize_binary32 z e :
  -149 <= e -> binary32 (binary_normalize 24 128 z e false) = true.
Proof.
  intros He. destruct z; [reflexivity | |]; now apply binary_round_binary32.
Qed.

Lemma add_binary32 x y :
  binary32 x = true -> binary32 y = true -> binary32 (F32.add x y) = true.
Proof.
  destruct x as [sx|sx| |sx mx ex], y as [sy|sy| |sy my ey]; intros Hx Hy;
    try reflexivity; try assumption;
    try (destruct sx, sy; reflexivity).
  apply bounded_facts in Hx, Hy. unfold F32.add, SFadd.
  apply binary_normalize_binary32. lia.
Qed.


Lemma fixed_eq m e : -149 <= e -> fixed m e = Z.pos m * 2 ^ (e + 149).
Proof. intros H. unfold fixed. apply Z.shiftl_mul_pow2. lia. Qed.

Lemma le_fixed mv ev mM eM :
  bounded 24 128 mv ev = true -> bounded 24 128 mM eM = true ->
  SFleb (S754_finite false mv ev) (S754_finite false mM eM) = true ->
  fixed mv ev <= fixed mM eM.
Proof.
  intros Hv HM. apply bounded_facts in Hv, HM.
  destruct Hv as (Hev & Hdv & _), HM as (HeM & _ & HdM).
  destruct (digits2_bounds mv) as [_ Hv2], (digits2_bounds mM) as [HM1 _].
  rewrite !fixed_eq by lia. unfold SFleb, SFcompare.
  destruct (Z.compare_spec ev eM) as [-> | Hlt | Hgt]; [ | | discriminate].
  - change (Pos.compare_cont Eq mv mM) with (Pos.compare mv mM).
    destruct (Pos.compare_spec mv mM); try discriminate; intros _;
      apply Z.mul_le_mono_nonneg_r; try lia; apply Z.pow_nonneg; lia.
  - intros _. rewrite HdM in HM1 by lia.
    assert (Z.pos mv < 2 ^ 24).
    { eapply Z.lt_le_trans; [exact Hv2|]. apply Z.pow_le_mono_r; lia. }
    replace (eM + 149) with (ev + 149 + (eM - ev)) by lia.
    rewrite (Z.pow_add_r 2 (ev + 149) (eM - ev)) by lia.
    assert (0 < 2 ^ (ev + 149)) by (apply Z.pow_pos_nonneg; lia).
    assert (2 ^ 1 <= 2 ^ (eM - ev)) by (apply Z.pow_le_mono_r; lia).
    change (2 ^ 1) with 2 in *. change (24 - 1) with 23 in HM1.
    change (2 ^ 23) with 8388608 in HM1. change (2 ^ 24) with 16777216 in *.
    apply Z.le_trans with (8388608 * (2 ^ (ev + 149) * 2)).
    { apply Z.le_trans with (16777216 * 2 ^ (ev + 149)); [|lia].
      apply Z.mul_le_mono_nonneg_r; lia. }
    apply Z.mul_le_mono_nonneg; try lia.
    apply Z.mul_le_mono_nonneg_l; lia.
Qed.

(** The difference of two positive numbers that are [2^(k+24)] apart or
    more rounds to a number whose exponent is above [k]. *)
Lemma sub_exponent mc ec mv ev k :
  -149 <= ec -> -149 <= ev -> -150 <= k ->
  fixed mv ev + Z.shiftl 1 (k + 173) <= fixed mc ec ->
  SFsub 24 128 (S754_finite false mc ec) (S754_finite false mv ev) = S754_infinity false \/
  exists m' e', SFsub 24 128 (S754_finite false mc ec) (S754_finite false mv ev)
                = S754_finite false m' e' /\ k < e'.
Proof.
  intros Hec Hev Hk Hgap. rewrite !fixed_eq, Z.shiftl_1_l in Hgap by lia.
  unfold SFsub. cbn [cond_Zopp].
  set (ez := Z.min ec ev).
  destruct (shl_align_spec mc ec ez) as [_ Hc], (shl_align_spec mv ev ez) as [_ Hv].
  replace (Z.min ec ez) with ez in Hc by lia.
  replace (Z.min ev ez) with ez in Hv by lia.
  rewrite Hc, Hv.
  assert (Hp : 0 < 2 ^ (ez + 149)) by (apply Z.pow_pos_nonneg; lia).
  assert (Hcz : Z.pos mc * 2 ^ (ec - ez) * 2 ^ (ez + 149) = Z.pos mc * 2 ^ (ec + 149)).
  { rewrite <- Z.mul_assoc, <- Z.pow_add_r by lia. do 2 f_equal. lia. }
  assert (Hvz : Z.pos mv * 2 ^ (ev - ez) * 2 ^ (ez + 149) = Z.pos mv * 2 ^ (ev + 149)).
  { rewrite <- Z.mul_assoc, <- Z.pow_add_r by lia. do 2 f_equal. lia. }
  assert (Hk2 : 0 < 2 ^ (k + 173)) by (apply Z.pow_pos_nonneg; lia).
  set (D := Z.pos mc * 2 ^ (ec - ez) - Z.pos mv * 2 ^ (ev - ez)).
  assert (HD : 2 ^ (k + 173) <= D * 2 ^ (ez + 149)).
  { unfold D. rewrite Z.mul_sub_distr_r, Hcz, Hvz. lia. }
  destruct D as [|Dp|Dp] eqn:ED; [lia | | lia].
  unfold binary_normalize.
  destruct (digits2_bounds Dp) as [_ Hhi].
  assert (Hd : k + 24 < Z.pos (digits2_pos Dp) + ez).
  { assert (2 ^ (k + 173) < 2 ^ (Z.pos (digits2_pos Dp) + (ez + 149))).
    { rewrite (Z.pow_add_r 2 (Z.pos (digits2_pos Dp)) (ez + 149)) by lia.
      eapply Z.le_lt_trans; [exact HD|].
      apply Z.mul_lt_mono_pos_r; lia. }
    apply Z.pow_lt_mono_r_iff in H; lia. }
  destruct (binary_round_normal false Dp ez) as (m' & e' & He & _ & ->); [lia|].
  destruct (e' <=? 104); [|now left].
  right. exists m', e'. split; [reflexivity | lia].
Qed.

Lemma clear_above_accepts lo hi h c v :
  clear_above lo hi h c = true ->
  binary32 v = true -> F32.le lo v = true -> F32.le v hi = true ->
  F32.gt (F32.fabsf (F32.sub c v)) h = true.
Proof.
  unfold clear_above.
  destruct lo as [sl| | |]; try discriminate.
  destruct hi as [| | |[] mM eM]; try discriminate.
  destruct h as [| | |[] mh eh]; try discriminate.
  destruct c as [| | |[] mc ec]; try discriminate.
  rewrite !andb_true_iff, !Z.leb_le, Z.ltb_lt.
  intros ((((HM & Hk) & Hhc) & Hec) & Hgap).
  assert (Hfin : forall m e, eh < e ->
            F32.gt (F32.fabsf (S754_finite false m e)) (S754_finite false mh eh) = true).
  { intros m e He. unfold F32.gt, F32.fabsf, SFltb, SFcompare, SFabs.
    now rewrite (proj2 (Z.compare_lt_iff eh e) He). }
  destruct v as [sv|[]| |[] mv ev]; try discriminate.
  - intros _ _ _. now apply Hfin.
  - intros Hv _ Hle.
    pose proof (le_fixed mv ev mM eM Hv HM Hle) as Hf.
    apply bounded_facts in Hv. destruct Hv as (Hev & _).
    destruct (sub_exponent mc ec mv ev eh) as [Hi | (m' & e' & Hr & He)];
      try lia; unfold F32.sub, F32.prec, F32.emax; rewrite ?Hi, ?Hr;
      [reflexivity | now apply Hfin].
Qed.

(** The conversion of a positive 16-bit integer: a normal number whose
    exponent is fixed by the number of digits. *)
Lemma of_Z_normal (rv : positive) :
  Z.pos rv < 65536 ->
  exists m e, F32.of_Z (Z.pos rv) = S754_finite false m e /\
    Z.pos (digits2_pos m) = 24 /\
    Z.pos (digits2_pos rv) - 24 <= e <= Z.pos (digits2_pos rv) - 23.
Proof.
  intros Hr. unfold F32.of_Z, binary_normalize, F32.prec, F32.emax.
  destruct (digits2_bounds rv) as [Hlo _].
  assert (Hd : 1 <= Z.pos (digits2_pos rv) <= 16).
  { split; [lia|]. destruct (Z.le_gt_cases (Z.pos (digits2_pos rv)) 16) as [|G]; [assumption|].
    assert (2 ^ 16 <= 2 ^ (Z.pos (digits2_pos rv) - 1)) by (apply Z.pow_le_mono_r; lia).
    change (2 ^ 16) with 65536 in *. lia. }
  destruct (binary_round_normal false rv 0) as (m & e & He & Hm & ->); [lia|].
  destruct (Z.leb_spec e 104); [|lia].
  exists m, e. split; [reflexivity|]. split; [exact Hm | lia].
Qed.

(** The candidate decoded from a positive 16-bit raw value, for a normal
    positive step: a positive normal number whose exponent is at least the
    digits of the raw value plus the exponent of the step, less one. *)
Lemma fromReg_normal (p : Param) (rv : positive) ms es :
  step p = S754_finite false ms es -> Z.pos (digits2_pos ms) = 24 ->
  -149 <= es <= 0 -> Z.pos rv < 65536 ->
  exists m e, fromReg p (Z.pos rv) = S754_finite false m e /\
    Z.pos (digits2_pos m) = 24 /\
    Z.pos (digits2_pos rv) + es - 1 <= e <= 104.
Proof.
  intros Hs Hms Hes Hr. unfold fromReg. rewrite Hs.
  destruct (of_Z_normal rv Hr) as (m1 & e1 & -> & Hm1 & He1).
  destruct (digits2_bounds rv) as [Hlo _].
  assert (Hd : 1 <= Z.pos (digits2_pos rv) <= 16).
  { split; [lia|]. destruct (Z.le_gt_cases (Z.pos (digits2_pos rv)) 16) as [|G]; [assumption|].
    assert (2 ^ 16 <= 2 ^ (Z.pos (digits2_pos rv) - 1)) by (apply Z.pow_le_mono_r; lia).
    change (2 ^ 16) with 65536 in *. lia. }
  unfold F32.mul, SFmul, F32.prec, F32.emax. cbn [xorb].
  pose proof (digits2_mul m1 ms Hm1 Hms) as Hp.
  destruct (binary_round_aux_normal false (m1 * ms) (e1 + es) loc_Exact)
    as (m & e & He & Hm & ->); [lia | lia |].
  destruct (Z.leb_spec e 104); [|lia].
  exists m, e. split; [reflexivity|]. split; [exact Hm | lia].
Qed.

End Rounding.

(** ** The record of globals *)

Section Frames.

Context {U : LroundfUnspecified}.

Lemma same_controls_refl st : same_controls st st.
Proof. repeat split. Qed.

Lemma same_controls_trans st1 st2 st3 :
  same_controls st1 st2 -> same_controls st2 st3 -> same_controls st1 st3.
Proof. unfold same_controls. intuition congruence. Qed.

Lemma inbound_redraw_frame i st :
  same_controls st (inbound_redraw i st) /\
  params (inbound_redraw i st) = params st /\
  hregs (inbound_redraw i st) = hregs st.
Proof.
  unfold inbound_redraw.
  destruct (screen st); try destruct (editIndex st =? Z.of_nat i);
    repeat split.
Qed.

(** After the first [n] iterations of the inbound loop the first [n]
    parameters are the accepted ones and the rest is untouched. *)
Lemma inbound_prefix n st :
  (n <= length (params st))%nat ->
  let st' := fold_left inbound_step (seq 0 n) st in
  params st' = map (inbound_param (hregs st)) (take n (params st)) ++ drop n (params st) /\
  hregs st' = hregs st /\ same_controls st st'.
Proof.
  induction n as [|n IH]; intros Hn; cbn zeta.
  - simpl. rewrite drop_0. repeat split.
  - rewrite seq_S, fold_left_app. simpl.
    destruct IH as (Hp & Hh & Hc); [lia|].
    set (st1 := fold_left inbound_step (seq 0 n) st) in *.
    destruct (lookup_lt_is_Some_2 (params st) n) as [p Hlk]; [lia|].
    assert (Hlen : length (map (inbound_param (hregs st)) (take n (params st))) = n).
    { rewrite length_map, length_take. lia. }
    assert (Hlk1 : params st1 !! n = Some p).
    { rewrite Hp, lookup_app_r by lia. rewrite Hlen, Nat.sub_diag.
      rewrite lookup_drop. now rewrite Nat.add_0_r. }
    unfold inbound_step. rewrite Hlk1, Hh.
    rewrite (take_S_r _ _ _ Hlk), map_app. simpl map.
    unfold inbound_param at 2.
    destruct (inbound_accepts p (Hreg_get (hregs st) (reg p))) eqn:Ea.
    + destruct (inbound_redraw_frame n
        (set_params st1 (<[n:=set_value p
           (clampf (fromReg p (Hreg_get (hregs st) (reg p))) (minVal p) (maxVal p))]>
           (params st1)))) as (Hc' & Hp' & Hh').
      rewrite Hp', Hh'. simpl. split; [|split; [exact Hh|]].
      * rewrite Hp. rewrite insert_app_r_alt by lia. rewrite Hlen, Nat.sub_diag.
        rewrite (drop_S _ _ _ Hlk). simpl. now rewrite <- app_assoc.
      * eapply same_controls_trans; [exact Hc|]. exact Hc'.
    + split; [|split; [exact Hh|exact Hc]].
      rewrite Hp, (drop_S _ _ _ Hlk). now rewrite <- app_assoc.
Qed.

Lemma sync_inbound_params st :
  params (sync_inbound st) = map (inbound_param (hregs st)) (params st) /\
  hregs (sync_inbound st) = hregs st /\ same_controls st (sync_inbound st).
Proof.
  destruct (inbound_prefix (length (params st)) st) as (Hp & Hh & Hc); [lia|].
  unfold sync_inbound. rewrite Hp, take_ge, drop_ge by lia.
  now rewrite app_nil_r.
Qed.

End Frames.

(** ** Inbound sync *)

Section Inbound.

Lemma inbound_accepts_not_nan p rv :
  inbound_accepts p rv = true -> F32.is_nan (fromReg p rv) = false.
Proof.
  unfold inbound_accepts, F32.gt. intros H.
  apply lt_not_nan in H. destruct H as [_ H].
  apply fabsf_not_nan in H. now apply sub_not_nan in H.
Qed.

Lemma sync_inbound_lookup st i p :
  params st !! i = Some p ->
  params (sync_inbound st) !! i = Some (inbound_param (hregs st) p).
Proof.
  intros H. destruct (sync_inbound_params st) as (Hp & _).
  rewrite Hp, list_lookup_fmap, H. reflexivity.
Qed.

(** C3, as amended: in the inbound pass a parameter's value is overwritten
    with the clamped candidate exactly when the candidate differs from it
    by strictly more than half a step; a difference of at most half a step
    leaves the value as it was.  Nothing else of the parameter changes. *)
Theorem inbound_strict_threshold (st : State) (i : nat) (p : Param) :
  params st !! i = Some p ->
  let candidate := fromReg p (Hreg_get (hregs st) (reg p)) in
  let distance := F32.fabsf (F32.sub candidate (value p)) in
  let half_step := F32.mul (step p) F32.half in
  exists p', params (sync_inbound st) !! i = Some p' /\
    (F32.gt distance half_step = true ->
       p' = set_value p (clampf candidate (minVal p) (maxVal p))) /\
    (F32.gt distance half_step = false -> p' = p) /\
    (F32.le distance half_step = true -> p' = p).
Proof.
  intros H candidate distance half_step.
  exists (inbound_param (hregs st) p). split; [now apply sync_inbound_lookup|].
  unfold inbound_param, inbound_accepts.
  fold candidate. fold distance. fold half_step.
  repeat split.
  - now intros ->.
  - now intros ->.
  - intros Hle. now rewrite (le_not_gt _ _ Hle).
Qed.

End Inbound.

(** ** Rotary edit *)

Section Rotary.

Lemma edit_accepts_not_nan p nv :
  edit_accepts p nv = true -> F32.is_nan nv = false.
Proof.
  unfold edit_accepts, F32.ge. intros H.
  apply le_not_nan in H. destruct H as [_ H].
  apply fabsf_not_nan in H. now apply sub_not_nan in H.
Qed.

Lemma param_at_insert st i p q :
  param_at st i = Some p ->
  param_at (set_params st (<[Z.to_nat i := q]> (params st))) i = Some q.
Proof.
  unfold param_at. simpl. destruct (0 <=? i); [|discriminate].
  intros H. apply list_lookup_insert_eq. now apply lookup_lt_Some in H.
Qed.

(** The encoder switch in [PARAM_EDIT], on the parameter under edit. *)
Lemma handle_encoder_edit now st p :
  screen st = PARAM_EDIT -> param_at st (editIndex st) = Some p ->
  now <> encPrev st ->
  let nv := edit_candidate p (to_long (now - encPrev st)) in
  param_at (handle_encoder now st) (editIndex st)
    = Some (if edit_accepts p nv then set_value p nv else p) /\
  hregs (handle_encoder now st) = hregs st.
Proof.
  intros Hs Hp Hn nv. unfold handle_encoder.
  apply Z.eqb_neq in Hn. rewrite Hn.
  change (screen (set_encPrev st now)) with (screen st). rewrite Hs.
  change (editIndex (set_encPrev st now)) with (editIndex st).
  change (param_at (set_encPrev st now) (editIndex st)) with (param_at st (editIndex st)).
  rewrite Hp. fold nv. destruct (edit_accepts p nv).
  - split; [|reflexivity].
    change (param_at (set_params (set_encPrev st now)
              (<[Z.to_nat (editIndex st) := set_value p nv]> (params (set_encPrev st now))))
              (editIndex st) = Some (set_value p nv)).
    now apply (param_at_insert (set_encPrev st now) (editIndex st) p).
  - split; [exact Hp | reflexivity].
Qed.

End Rotary.

(** ** Candidates beyond the bounds *)

Section Pinning.

Lemma all_below_spec f n :
  all_below f n = true -> forall k, 0 <= k < Z.pos n -> f k = true.
Proof.
  unfold all_below.
  set (step := fun bk : bool * Z => (fst bk && f (snd bk), snd bk + 1)).
  assert (H : forall m, snd (Pos.iter step (true, 0) m) = Z.pos m /\
                (fst (Pos.iter step (true, 0) m) = true ->
                 forall k, 0 <= k < Z.pos m -> f k = true)).
  { induction m as [|m IH] using Pos.peano_ind.
    - simpl. split; [reflexivity|]. intros Hf k Hk.
      assert (k = 0) by lia. subst k. exact Hf.
    - rewrite Pos.iter_succ. destruct IH as [Hs Ht].
      unfold step at 1. cbn [fst snd]. split; [rewrite Hs; lia|].
      intros Hf k Hk. apply andb_true_iff in Hf. destruct Hf as [Hf1 Hf2].
      rewrite Hs in Hf2.
      destruct (Z.eq_dec k (Z.pos m)) as [-> | Hne]; [exact Hf2|].
      apply Ht; [exact Hf1 | lia]. }
  intros Hf. exact (proj2 (H n) Hf).
Qed.

Lemma static_set_value p q v : static q = static p -> set_value q v = set_value p v.
Proof. destruct p, q. unfold static, set_value. simpl. congruence. Qed.

Lemma static_fields p q :
  static q = static p -> step q = step p /\ minVal q = minVal p /\
  maxVal q = maxVal p /\ reg q = reg p.
Proof. destruct p, q. unfold static, set_value. simpl. intros [=]. now subst. Qed.

Lemma pin_side_table : forallb pin_side params0 = true.
Proof. vm_compute. reflexivity. Qed.

Lemma pin_table :
  forallb (fun p => all_below (pin_check p) (Z.to_pos (pin_limit p))) params0 = true.
Proof. vm_compute. reflexivity. Qed.

(** Every 16-bit raw value passes [pin_check] on the seven parameters:
    below [pin_limit] by evaluation, from there on by the exponent of the
    candidate. *)
Lemma pin_check_all p rv :
  In p params0 -> 0 <= rv < 65536 -> pin_check p rv = true.
Proof.
  intros Hp Hr.
  pose proof pin_side_table as Hs. rewrite forallb_forall in Hs. specialize (Hs p Hp).
  pose proof pin_table as Ht. rewrite forallb_forall in Ht. specialize (Ht p Hp).
  unfold pin_side in Hs. unfold pin_check, pin_limit in *.
  destruct (minVal p) as [sl| | |] eqn:Elo; try discriminate.
  destruct (maxVal p) as [| | |[] mM eM] eqn:Ehi; try discriminate.
  remember (F32.mul (step p) F32.half) as h eqn:Eh.
  destruct (step p) as [| | |[] ms es] eqn:Es; try discriminate.
  destruct h as [| | |[] mh eh]; try discriminate.
  rewrite !andb_true_iff, !Z.leb_le, Z.eqb_eq in Hs.
  destruct Hs as (((((((HM & Hsb) & Hms) & Hes) & Hk) & HhM) & Hlim) & Hgap).
  assert (Hpos : 0 < 2 ^ (eM - es + 1)) by (apply Z.pow_pos_nonneg; lia).
  destruct (Z.lt_ge_cases rv (Z.min 65536 (2 ^ (eM - es + 1)))) as [Hlt | Hge].
  { apply (all_below_spec _ _ Ht). rewrite Z2Pos.id; lia. }
  destruct rv as [|rv|rv]; [lia | | lia].
  apply bounded_facts in Hsb. destruct Hsb as (Hes' & _).
  destruct (fromReg_normal p rv ms es Es Hms ltac:(lia) ltac:(lia))
    as (m & e & Hc & Hm & He).
  rewrite Hc.
  destruct (digits2_bounds rv) as [_ Hrv].
  assert (Hd : eM - es + 1 < Z.pos (digits2_pos rv)).
  { assert (2 ^ (eM - es + 1) < 2 ^ Z.pos (digits2_pos rv)) by lia.
    apply Z.pow_lt_mono_r_iff in H; lia. }
  pose proof (bounded_facts _ _ HM) as (HeM & _).
  assert (Hb : binary32 (S754_finite false m e) = true).
  { apply bounded_normal; [exact Hm | lia]. }
  rewrite Hb. cbn [andb]. 
  replace (F32.lt (S754_finite false m e) (S754_zero sl)) with false by reflexivity.
  cbn [negb andb]. apply orb_true_iff. right.
  unfold clear_above. rewrite HM. cbn [andb].
  rewrite !andb_true_iff, !Z.leb_le, Z.ltb_lt.
  repeat split; try lia.
  eapply Z.le_trans; [exact Hgap|].
  rewrite fixed_eq, Z.shiftl_1_l by lia.
  destruct (digits2_bounds m) as [Hm1 _]. rewrite Hm in Hm1.
  change (2 ^ (24 - 1)) with (2 ^ 23) in Hm1.
  apply Z.le_trans with (2 ^ 23 * 2 ^ (e + 149)).
  - rewrite <- Z.pow_add_r by lia. apply Z.pow_le_mono_r; lia.
  - apply Z.mul_le_mono_nonneg_r; [apply Z.pow_nonneg|]; lia.
Qed.

(** On the seven parameters the inbound pass pins: a binary32 value within
    the bounds and a 16-bit register never give a candidate below
    [minVal], and a candidate above [maxVal] always passes the half-step
    test and is clamped to [maxVal]. *)
Lemma inbound_pins (p0 q : Param) (rv : Z) :
  In p0 params0 -> static q = static p0 ->
  binary32 (value q) = true -> in_bounds q = true -> 0 <= rv < 65536 ->
  binary32 (fromReg q rv) = true /\
  F32.lt (fromReg q rv) (minVal q) = false /\
  (F32.gt (fromReg q rv) (maxVal q) = true ->
     inbound_accepts q rv = true /\
     clampf (fromReg q rv) (minVal q) (maxVal q) = maxVal q).
Proof.
  intros Hp Hq Hv Hin Hr.
  destruct (static_fields p0 q Hq) as (Hs & Hlo & Hhi & _).
  pose proof (pin_check_all p0 rv Hp Hr) as Hc.
  assert (Hle : F32.le (minVal p0) (maxVal p0) = true).
  { clear -Hp. simpl in Hp.
    repeat (destruct Hp as [<- | Hp]; [vm_compute; reflexivity|]). destruct Hp. }
  unfold pin_check in Hc. unfold fromReg in *. rewrite Hs, Hlo, Hhi.
  set (c := F32.mul (F32.of_Z rv) (step p0)) in *.
  apply andb_true_iff in Hc. destruct Hc as [Hc Hab].
  apply andb_true_iff in Hc. destruct Hc as [Hb Hnl].
  split; [exact Hb|]. split; [now apply negb_true_iff|].
  intros Hgt. rewrite Hgt in Hab. cbn [negb orb] in Hab.
  split; [|now apply clampf_above].
  unfold inbound_accepts, fromReg. rewrite Hs. fold c.
  unfold in_bounds in Hin. rewrite Hlo, Hhi in Hin.
  apply andb_true_iff in Hin. destruct Hin as [H1 H2].
  now apply (clear_above_accepts (minVal p0) (maxVal p0)).
Qed.

End Pinning.

(** ** Bounds of the parameter values *)

Section Bounds.

(** C4, as amended: for a parameter with ordered bounds, whenever the
    inbound pass or a rotary edit assigns the value, the stored value lies
    within [minVal, maxVal], a candidate above [maxVal] being stored as
    exactly [maxVal] and one below [minVal] as exactly [minVal]; when the
    half-step test of the path does not pass, the parameter is left as it
    was, so a value within bounds stays within bounds.  On the inbound
    path the test is no obstacle for the seven parameters of the table:
    with a binary32 value within the bounds and a 16-bit register, no
    candidate is below [minVal], and every candidate above [maxVal] passes
    the test and pins the value at [maxVal].  On the rotary path the test
    stands: a candidate beyond a bound pins the value only when it passes
    the test, that is when the bound is at least half a step away. *)
Theorem value_stays_within_bounds (st : State) (p : Param) :
  F32.le (minVal p) (maxVal p) = true ->
  (forall i, params st !! i = Some p ->
     let candidate := fromReg p (Hreg_get (hregs st) (reg p)) in
     exists p', params (sync_inbound st) !! i = Some p' /\
       minVal p' = minVal p /\ maxVal p' = maxVal p /\
       (in_bounds p = true -> in_bounds p' = true) /\
       (inbound_accepts p (Hreg_get (hregs st) (reg p)) = false -> p' = p) /\
       (inbound_accepts p (Hreg_get (hregs st) (reg p)) = true ->
          in_bounds p' = true /\
          (F32.gt candidate (maxVal p) = true -> value p' = maxVal p) /\
          (F32.lt candidate (minVal p) = true -> value p' = minVal p))) /\
  (forall now, screen st = PARAM_EDIT -> param_at st (editIndex st) = Some p ->
     now <> encPrev st ->
     let diff := to_long (now - encPrev st) in
     let delta := if diff >? 0 then step p else F32.neg (step p) in
     let candidate := F32.add (value p) delta in
     exists p', param_at (handle_encoder now st) (editIndex st) = Some p' /\
       minVal p' = minVal p /\ maxVal p' = maxVal p /\
       (in_bounds p = true -> in_bounds p' = true) /\
       (edit_accepts p (edit_candidate p diff) = false -> p' = p) /\
       (edit_accepts p (edit_candidate p diff) = true ->
          in_bounds p' = true /\
          (F32.gt candidate (maxVal p) = true -> value p' = maxVal p) /\
          (F32.lt candidate (minVal p) = true -> value p' = minVal p))) /\
  (forall i p0, In p0 params0 -> static p = static p0 ->
     params st !! i = Some p ->
     binary32 (value p) = true -> in_bounds p = true ->
     0 <= Hreg_get (hregs st) (reg p) < 65536 ->
     let candidate := fromReg p (Hreg_get (hregs st) (reg p)) in
     F32.lt candidate (minVal p) = false /\
     (F32.gt candidate (maxVal p) = true ->
        inbound_accepts p (Hreg_get (hregs st) (reg p)) = true /\
        exists p', params (sync_inbound st) !! i = Some p' /\ value p' = maxVal p)).
Proof.
  intros Hb. split; [|split].
  - intros i Hi candidate.
    exists (inbound_param (hregs st) p).
    split; [now apply sync_inbound_lookup|].
    unfold inbound_param. fold candidate.
    destruct (inbound_accepts p (Hreg_get (hregs st) (reg p))) eqn:Ea.
    + assert (Hin : in_bounds (set_value p (clampf candidate (minVal p) (maxVal p))) = true).
      { unfold in_bounds. simpl. apply andb_true_iff.
        apply clampf_in_range; [exact Hb|].
        apply inbound_accepts_not_nan in Ea. fold candidate in Ea.
        destruct (le_not_nan _ _ Hb) as [Hlo Hhi].
        unfold clampf. destruct (F32.lt candidate (minVal p)); [exact Hlo|].
        destruct (F32.gt candidate (maxVal p)); [exact Hhi | exact Ea]. }
      split; [reflexivity|]. split; [reflexivity|].
      split; [intros _; exact Hin|]. split; [discriminate|].
      intros _. split; [exact Hin|]. simpl. split.
      * intros Hgt. now apply clampf_above.
      * intros Hlt. now apply clampf_below.
    + repeat split; try discriminate; auto.
  - intros now Hs Hp Hn diff delta candidate.
    destruct (handle_encoder_edit now st p Hs Hp Hn) as [Hlk _].
    fold diff in Hlk.
    eexists. split; [exact Hlk|].
    assert (Hc : edit_candidate p diff = clampf candidate (minVal p) (maxVal p)) by reflexivity.
    destruct (edit_accepts p (edit_candidate p diff)) eqn:Ea.
    + assert (Hin : in_bounds (set_value p (edit_candidate p diff)) = true).
      { unfold in_bounds. simpl. apply andb_true_iff. rewrite Hc.
        apply clampf_in_range; [exact Hb|]. rewrite <- Hc.
        now apply edit_accepts_not_nan in Ea. }
      split; [reflexivity|]. split; [reflexivity|].
      split; [intros _; exact Hin|]. split; [discriminate|].
      intros _. split; [exact Hin|]. simpl. rewrite Hc. split.
      * intros Hgt. now apply clampf_above.
      * intros Hlt. now apply clampf_below.
    + repeat split; try discriminate; auto.
  - intros i p0 Hp0 Hq Hi Hv Hin Hr candidate.
    destruct (inbound_pins p0 p _ Hp0 Hq Hv Hin Hr) as (_ & Hlo & Hhi).
    split; [exact Hlo|]. intros Hgt. destruct (Hhi Hgt) as [Ha Hc].
    split; [exact Ha|].
    exists (inbound_param (hregs st) p). split; [now apply sync_inbound_lookup|].
    unfold inbound_param. rewrite Ha. exact Hc.
Qed.

End Bounds.

(** ** Outbound sync *)

Section Outbound.

Context {U : LroundfUnspecified}.

Lemma Hreg_set_lookup_eq (t : gmap Z Z) a v :
  Hreg_set t a v !! a = (fun _ => v) <$> t !! a.
Proof.
  unfold Hreg_set. destruct (t !! a) eqn:E; simpl.
  - apply lookup_insert_eq.
  - exact E.
Qed.

Lemma Hreg_set_lookup_ne (t : gmap Z Z) a b v :
  a <> b -> Hreg_set t a v !! b = t !! b.
Proof.
  intros Hne. unfold Hreg_set. destruct (t !! a); [|reflexivity].
  now apply lookup_insert_ne.
Qed.

Lemma outbound_writes_snoc (t : gmap Z Z) ps p :
  outbound_writes t (ps ++ [p]) =
  outbound_writes t ps ++
    (if outbound_stale t p then [HregWrite (reg p) (toReg p)] else []).
Proof.
  unfold outbound_writes. rewrite filter_app, map_app. f_equal.
  destruct (outbound_stale t p) eqn:E.
  - now rewrite filter_cons_True.
  - rewrite filter_cons_False; [reflexivity|]. congruence.
Qed.

(** State of the outbound loop after its first [n] iterations, for
    parameters with pairwise distinct register addresses. *)
Lemma outbound_prefix n st :
  NoDup (reg <$> params st) ->
  (n <= length (params st))%nat ->
  let st' := fold_left outbound_step (seq 0 n) st in
  params st' = params st /\ same_controls st st' /\
  trace st' = trace st ++ outbound_writes (hregs st) (take n (params st)) /\
  (forall a, a ∉ (reg <$> take n (params st)) -> hregs st' !! a = hregs st !! a) /\
  (forall p, p ∈ take n (params st) ->
     hregs st' !! reg p = (fun _ => toReg p) <$> hregs st !! reg p).
Proof.
  intros Hnd. induction n as [|n IH]; intros Hn; cbn zeta.
  - simpl. rewrite app_nil_r. repeat split. intros p Hp. inversion Hp.
  - rewrite seq_S, fold_left_app. simpl.
    destruct IH as (Hp & Hc & Ht & Hout & Hin); [lia|].
    set (st1 := fold_left outbound_step (seq 0 n) st) in *.
    destruct (lookup_lt_is_Some_2 (params st) n) as [p Hlk]; [lia|].
    assert (Hfresh : reg p ∉ (reg <$> take n (params st))).
    { rewrite <- (take_drop_middle _ _ _ Hlk), fmap_app, fmap_cons in Hnd.
      apply NoDup_app in Hnd. destruct Hnd as (_ & Hd & _).
      intros Hel. apply (Hd _ Hel). left. }
    assert (Hcur : hregs st1 !! reg p = hregs st !! reg p) by now apply Hout.
    unfold outbound_step. rewrite Hp, Hlk.
    rewrite (take_S_r _ _ _ Hlk), outbound_writes_snoc.
    assert (Hg : Hreg_get (hregs st1) (reg p) = Hreg_get (hregs st) (reg p)).
    { unfold Hreg_get. now rewrite Hcur. }
    rewrite Hg. unfold outbound_stale.
    destruct (Hreg_get (hregs st) (reg p) =? toReg p) eqn:Eq; simpl negb; cbv iota.
    + apply Z.eqb_eq in Eq. unfold Hreg_get in Eq.
      split; [exact Hp|]. split; [exact Hc|].
      split; [now rewrite app_nil_r|]. split.
      * intros a Ha. apply Hout. intros Hel. apply Ha.
        rewrite fmap_app. apply elem_of_app. now left.
      * intros q Hq. apply elem_of_app in Hq. destruct Hq as [Hq|Hq].
        -- now apply Hin.
        -- apply list_elem_of_singleton in Hq. subst q. rewrite Hcur.
           destruct (hregs st !! reg p); simpl in *; congruence.
    + split; [exact Hp|]. split; [exact Hc|].
      split; [simpl; rewrite Ht; now rewrite <- app_assoc|]. split.
      * intros a Ha. simpl. rewrite Hreg_set_lookup_ne.
        -- apply Hout. intros Hel. apply Ha.
           rewrite fmap_app. apply elem_of_app. now left.
        -- intros <-. apply Ha. rewrite fmap_app. apply elem_of_app. right. left.
      * intros q Hq. simpl. apply elem_of_app in Hq. destruct Hq as [Hq|Hq].
        -- rewrite Hreg_set_lookup_ne; [now apply Hin|].
           intros Heq. apply Hfresh. rewrite Heq.
           apply list_elem_of_fmap. now exists q.
        -- apply list_elem_of_singleton in Hq. subst q.
           now rewrite Hreg_set_lookup_eq, Hcur.
Qed.

(** C6: when the outbound pass runs over parameters with distinct register
    addresses, it issues a register write for a parameter, carrying
    [toReg], exactly when that encoding differs from the raw value the
    table holds at the parameter's address; the writes come in parameter
    order and are the only calls issued.  A register that already equals
    its parameter's encoding keeps its entry, and so does every address
    that belongs to no parameter. *)
Theorem outbound_writes_iff_differs (st : State) :
  NoDup (reg <$> params st) ->
  trace (outbound_pass st) = trace st ++ outbound_writes (hregs st) (params st) /\
  params (outbound_pass st) = params st /\
  (forall p, p ∈ params st ->
     (HregWrite (reg p) (toReg p) ∈ outbound_writes (hregs st) (params st)
        <-> toReg p <> Hreg_get (hregs st) (reg p)) /\
     (toReg p = Hreg_get (hregs st) (reg p) ->
        hregs (outbound_pass st) !! reg p = hregs st !! reg p) /\
     hregs (outbound_pass st) !! reg p = (fun _ => toReg p) <$> hregs st !! reg p) /\
  (forall a, a ∉ (reg <$> params st) ->
     hregs (outbound_pass st) !! a = hregs st !! a).
Proof.
  intros Hnd.
  destruct (outbound_prefix (length (params st)) st Hnd) as (Hp & _ & Ht & Hout & Hin);
    [lia|].
  rewrite take_ge in Ht, Hout, Hin by lia.
  unfold outbound_pass.
  split; [exact Ht|]. split; [exact Hp|]. split; [|exact Hout].
  intros p Hel. split; [|split].
  - unfold outbound_writes. split.
    + intros Hw. apply list_elem_of_fmap in Hw. destruct Hw as (q & Hq & Hf).
      apply list_elem_of_filter in Hf. destruct Hf as [Hs _].
      injection Hq as Hr Hv. unfold outbound_stale in Hs.
      rewrite <- Hr, <- Hv in Hs. apply negb_true_iff, Z.eqb_neq in Hs. congruence.
    + intros Hne. apply list_elem_of_fmap. exists p. split; [reflexivity|].
      apply list_elem_of_filter. split; [|exact Hel].
      unfold outbound_stale. apply negb_true_iff, Z.eqb_neq. congruence.
  - intros Heq. rewrite (Hin p Hel). unfold Hreg_get in Heq.
    destruct (hregs st !! reg p); simpl in *; congruence.
  - now apply Hin.
Qed.

End Outbound.

(** ** Navigation *)

Section Navigation.

Context {U : LroundfUnspecified}.

Lemma handle_encoder_frame now st :
  screen (handle_encoder now st) = screen st /\
  editIndex (handle_encoder now st) = editIndex st /\
  hregs (handle_encoder now st) = hregs st.
Proof.
  unfold handle_encoder. destruct (now =? encPrev st); [repeat split|].
  change (screen (set_encPrev st now)) with (screen st).
  destruct (screen st) eqn:Es;
    repeat match goal with
    | |- context [if ?b then _ else _] => destruct b
    | |- context [match ?o with Some _ => _ | None => _ end] => destruct o
    end; simpl; rewrite ?Es; repeat split.
Qed.

(** C7: Select in [HOME] opens the parameter list with the cursor on
    entry 0; Select in [PARAM_LIST] opens the editor on the entry under the
    cursor; Select in [PARAM_EDIT] writes [toReg] of the edited parameter
    to that parameter's register, so that an existing register then reads
    that encoding, and returns to the parameter list. *)
Theorem select_press_navigation (st : State) (encRead : Z) :
  (screen st = HOME ->
     screen (onSelect encRead st) = PARAM_LIST /\
     listIndex (onSelect encRead st) = 0) /\
  (screen st = PARAM_LIST ->
     screen (onSelect encRead st) = PARAM_EDIT /\
     editIndex (onSelect encRead st) = listIndex st) /\
  (forall p, screen st = PARAM_EDIT -> param_at st (editIndex st) = Some p ->
     screen (onSelect encRead st) = PARAM_LIST /\
     hregs (onSelect encRead st) = Hreg_set (hregs st) (reg p) (toReg p) /\
     trace (onSelect encRead st) =
       trace st ++ [HregWrite (reg p) (toReg p); DrawParamList] /\
     (is_Some (hregs st !! reg p) ->
        Hreg_get (hregs (onSelect encRead st)) (reg p) = toReg p)).
Proof.
  unfold onSelect. split; [|split].
  - intros ->. split; reflexivity.
  - intros ->. split; reflexivity.
  - intros p -> ->. simpl. repeat split.
    + now rewrite <- app_assoc.
    + intros [v Hv]. unfold Hreg_get. rewrite Hreg_set_lookup_eq, Hv. reflexivity.
Qed.

(** C8: Back in [PARAM_EDIT], after a rotation that was handled while
    editing, returns to the parameter list, leaves the register table as
    it was before the rotation, and keeps the parameters as the rotation
    left them: an adjustment the rotation applied is still in place.  Its
    only call is the redraw of the list, where Select would also have
    written the register. *)
Theorem back_from_edit_keeps_adjustment (st : State) (now encRead : Z) :
  screen st = PARAM_EDIT ->
  let st1 := handle_encoder now st in
  let st2 := onBack st1 in
  screen st2 = PARAM_LIST /\
  hregs st2 = hregs st /\
  params st2 = params st1 /\
  trace st2 = trace st1 ++ [DrawParamList] /\
  (forall p, param_at st (editIndex st) = Some p -> now <> encPrev st ->
     let nv := edit_candidate p (to_long (now - encPrev st)) in
     edit_accepts p nv = true ->
     param_at st2 (editIndex st2) = Some (set_value p nv)) /\
  (forall p, param_at st1 (editIndex st1) = Some p ->
     onBack st1 = emit DrawParamList (set_screen st1 PARAM_LIST) /\
     onSelect encRead st1 =
       emit DrawParamList (set_screen (mb_Hreg_write (reg p) (toReg p) st1) PARAM_LIST)).
Proof.
  intros Hs st1 st2.
  destruct (handle_encoder_frame now st) as (Hs1 & He1 & Hh1).
  fold st1 in Hs1, He1, Hh1. rewrite Hs in Hs1.
  assert (H2 : st2 = emit DrawParamList (set_screen st1 PARAM_LIST)).
  { unfold st2, onBack. now rewrite Hs1. }
  rewrite H2. simpl. repeat split; try assumption.
  - intros p Hp Hn Ha.
    destruct (handle_encoder_edit now st p Hs Hp Hn) as [Hlk _].
    cbn zeta in Hlk. rewrite Ha in Hlk. fold st1 in Hlk. rewrite <- He1 in Hlk.
    exact Hlk.
  - unfold onSelect. rewrite Hs1, H. reflexivity.
Qed.

(** C10: a long press of Select on any screen but [HOME] changes nothing:
    the screen, both cursors, the serial field, the encoder baseline, the
    parameters, the serial configuration and the register table are the
    same, and no call, hence no render request, is issued. *)
Theorem long_press_outside_home_is_noop (st : State) (encRead : Z) :
  screen st <> HOME ->
  onSelectLong encRead st = st /\
  trace (onSelectLong encRead st) = trace st.
Proof.
  intros Hs. unfold onSelectLong.
  destruct (screen st); try congruence; split; reflexivity.
Qed.

End Navigation.

(** ** Serial configuration editor *)

Section SerialEditor.

Lemma handle_encoder_serial_edit now st :
  screen st = SERIAL_EDIT -> now <> encPrev st ->
  scfg (handle_encoder now st) =
    serial_edit (serialField st) (to_long (now - encPrev st)) (scfg st).
Proof.
  intros Hs Hn. unfold handle_encoder.
  apply Z.eqb_neq in Hn. rewrite Hn.
  change (screen (set_encPrev st now)) with (screen st). now rewrite Hs.
Qed.

Lemma baud_index_nth k :
  0 <= k < 8 -> baud_index (nth (Z.to_nat k) BAUDS 0) = k.
Proof.
  intros Hk.
  assert (H : k = 0 \/ k = 1 \/ k = 2 \/ k = 3 \/ k = 4 \/ k = 5 \/ k = 6 \/ k = 7) by lia.
  repeat (destruct H as [-> | H]); try subst k; reflexivity.
Qed.

Lemma parity_index_nth k :
  0 <= k < 3 -> parity_index (nth (Z.to_nat k) parity_order "N"%char) = k.
Proof.
  intros Hk. assert (H : k = 0 \/ k = 1 \/ k = 2) by lia.
  repeat (destruct H as [-> | H]); try subst k; reflexivity.
Qed.

(** C9: in [SERIAL_EDIT] a rotation changes the selected field and no
    other.  The baud moves one place up or down the table
    1200, 2400, 4800, 9600, 19200, 38400, 57600, 115200 and stays at an end
    it would leave; the parity moves one place round the cycle N, E, O,
    that is to place [(k + d + 3) mod 3] for [d] = +1 or -1; data bits
    become 8 on a positive and 7 on a negative rotation, stop bits 2 and
    1. *)
Theorem serial_edit_rotation (st : State) (now : Z) :
  screen st = SERIAL_EDIT -> now <> encPrev st ->
  let diff := to_long (now - encPrev st) in
  let d := if diff >? 0 then 1 else -1 in
  let c := scfg st in
  let c' := scfg (handle_encoder now st) in
  BAUDS = [1200; 2400; 4800; 9600; 19200; 38400; 57600; 115200] /\
  (serialField st = BAUD ->
     dataBits c' = dataBits c /\ parity c' = parity c /\ stopBits c' = stopBits c /\
     forall k, 0 <= k < 8 -> baud c = nth (Z.to_nat k) BAUDS 0 ->
       baud c' = nth (Z.to_nat (clamp (k + d) 0 7)) BAUDS 0 /\
       (k = 0 -> d = -1 -> baud c' = 1200) /\
       (k = 7 -> d = 1 -> baud c' = 115200)) /\
  (serialField st = PARITY ->
     baud c' = baud c /\ dataBits c' = dataBits c /\ stopBits c' = stopBits c /\
     forall k, 0 <= k < 3 -> parity c = nth (Z.to_nat k) parity_order "N"%char ->
       parity c' = nth (Z.to_nat ((k + d + 3) mod 3)) parity_order "N"%char) /\
  (serialField st = DATABITS ->
     baud c' = baud c /\ parity c' = parity c /\ stopBits c' = stopBits c /\
     dataBits c' = if diff >? 0 then 8 else 7) /\
  (serialField st = STOPBITS ->
     baud c' = baud c /\ dataBits c' = dataBits c /\ parity c' = parity c /\
     stopBits c' = if diff >? 0 then 2 else 1).
Proof.
  intros Hs Hn diff d c c'.
  assert (Hc : c' = serial_edit (serialField st) diff c)
    by now apply handle_encoder_serial_edit.
  split; [reflexivity|].
  split; [|split; [|split]]; intros Hf; rewrite Hc, Hf;
    unfold serial_edit, set_baud, set_parity, set_dataBits, set_stopBits;
    cbn [baud dataBits parity stopBits];
    (split; [reflexivity|]); (split; [reflexivity|]); (split; [reflexivity|]).
  - intros k Hk Hb. rewrite Hb, baud_index_nth by exact Hk.
    fold d. change (BAUD_COUNT - 1) with 7. split; [reflexivity|]. split.
    + intros -> Hd. rewrite Hd. reflexivity.
    + intros -> Hd. rewrite Hd. reflexivity.
  - intros k Hk Hp. rewrite Hp, parity_index_nth by exact Hk.
    reflexivity.
  - reflexivity.
  - reflexivity.
Qed.

End SerialEditor.

(** ** One pass through [loop] *)

Section Tick.

Context {U : LroundfUnspecified}.

Lemma inbound_param_reg t p : reg (inbound_param t p) = reg p.
Proof. unfold inbound_param. now destruct (inbound_accepts _ _). Qed.

Lemma sync_inbound_regs st :
  reg <$> params (sync_inbound st) = reg <$> params st.
Proof.
  destruct (sync_inbound_params st) as (Hp & _). rewrite Hp.
  apply list_eq. intros j. rewrite !list_lookup_fmap.
  destruct (params st !! j); simpl; [|reflexivity].
  now rewrite inbound_param_reg.
Qed.

(** The encoder switch rewrites at most the value of one parameter, and
    only with a candidate that passed its test. *)
Lemma handle_encoder_params now st :
  params (handle_encoder now st) = params st \/
  exists p, param_at st (editIndex st) = Some p /\
    let nv := edit_candidate p (to_long (now - encPrev st)) in
    edit_accepts p nv = true /\
    params (handle_encoder now st) =
      <[Z.to_nat (editIndex st) := set_value p nv]> (params st).
Proof.
  unfold handle_encoder. destruct (now =? encPrev st); [now left|].
  change (screen (set_encPrev st now)) with (screen st).
  destruct (screen st); try (now left).
  - destruct (_ =? _); now left.
  - change (param_at (set_encPrev st now) (editIndex (set_encPrev st now)))
      with (param_at st (editIndex st)).
    destruct (param_at st (editIndex st)) as [p|] eqn:Ep; [|now left].
    change (encPrev (set_encPrev st now)) with now.
    destruct (edit_accepts p (edit_candidate p (to_long (now - encPrev st)))) eqn:Ea;
      [|now left].
    right. exists p. split; [reflexivity|]. split; [exact Ea | reflexivity].
  - destruct (_ =? _); now left.
Qed.

Lemma handle_encoder_idle st : handle_encoder (encPrev st) st = st.
Proof. unfold handle_encoder. now rewrite Z.eqb_refl. Qed.

Lemma handle_encoder_regs now st :
  reg <$> params (handle_encoder now st) = reg <$> params st.
Proof.
  destruct (handle_encoder_params now st) as [-> | (p & Hp & _ & ->)];
    [reflexivity|].
  rewrite list_fmap_insert. simpl. apply list_insert_id.
  unfold param_at in Hp. destruct (0 <=? editIndex st); [|discriminate].
  now rewrite list_lookup_fmap, Hp.
Qed.

Lemma outbound_pass_lookup st p :
  NoDup (reg <$> params st) -> p ∈ params st ->
  hregs (outbound_pass st) !! reg p = (fun _ => toReg p) <$> hregs st !! reg p.
Proof.
  intros Hnd Hel.
  destruct (outbound_prefix (length (params st)) st Hnd) as (_ & _ & _ & _ & Hin);
    [lia|].
  rewrite take_ge in Hin by lia. now apply Hin.
Qed.

Lemma outbound_pass_params st :
  NoDup (reg <$> params st) -> params (outbound_pass st) = params st.
Proof.
  intros Hnd.
  destruct (outbound_prefix (length (params st)) st Hnd) as (Hp & _); [lia|].
  exact Hp.
Qed.

Lemma pre_sync_params tk st : params (pre_sync tk st) = params st.
Proof.
  unfold pre_sync, btnBack_loop, btnSelect_loop, onBack, onSelect, onSelectLong.
  destruct (back tk), (sel tk) as [[]|]; simpl;
    repeat match goal with
    | |- context [match screen ?s with _ => _ end] => destruct (screen s)
    | |- context [match param_at ?s ?i with _ => _ end] => destruct (param_at s i)
    end; reflexivity.
Qed.

Lemma pre_sync_tSync tk st : tSync (pre_sync tk st) = tSync st.
Proof.
  unfold pre_sync, btnBack_loop, btnSelect_loop, onBack, onSelect, onSelectLong.
  destruct (back tk), (sel tk) as [[]|]; simpl;
    repeat match goal with
    | |- context [match screen ?s with _ => _ end] => destruct (screen s)
    | |- context [match param_at ?s ?i with _ => _ end] => destruct (param_at s i)
    end; reflexivity.
Qed.

Lemma handle_encoder_tSync now st : tSync (handle_encoder now st) = tSync st.
Proof.
  unfold handle_encoder. destruct (now =? encPrev st); [reflexivity|].
  change (screen (set_encPrev st now)) with (screen st).
  destruct (screen st);
    repeat match goal with
    | |- context [if ?b then _ else _] => destruct b
    | |- context [match ?o with Some _ => _ | None => _ end] => destruct o
    end; reflexivity.
Qed.

Lemma param_at_nat st i : param_at st (Z.of_nat i) = params st !! i.
Proof.
  unfold param_at. destruct (Z.leb_spec 0 (Z.of_nat i)); [|lia].
  now rewrite Nat2Z.id.
Qed.

(** The register of [params[i]] when the sync passes start. *)
Lemma pre_sync_lookup tk st i p :
  NoDup (reg <$> params st) -> params st !! i = Some p ->
  params (pre_sync tk st) !! i = Some p /\
  hregs (pre_sync tk st) !! reg p =
    if select_saves tk st i
    then (fun _ => toReg p) <$> hregs (mb_task (remote tk) st) !! reg p
    else hregs (mb_task (remote tk) st) !! reg p.
Proof.
  intros Hnd Hi. split; [now rewrite pre_sync_params|].
  unfold pre_sync. set (st0 := mb_task (remote tk) st).
  assert (Hb : forall s, hregs (btnBack_loop tk s) = hregs s).
  { intros s. unfold btnBack_loop, onBack. destruct (back tk); [|reflexivity].
    now destruct (screen s). }
  rewrite Hb. unfold btnSelect_loop, select_saves.
  change (screen st) with (screen st0). change (editIndex st) with (editIndex st0).
  destruct (sel tk) as [[]|]; [| |reflexivity].
  - unfold onSelect. destruct (screen st0); try reflexivity.
    destruct (Z.eqb_spec (editIndex st0) (Z.of_nat i)) as [He | He].
    + rewrite He, param_at_nat. change (params st0) with (params st). rewrite Hi.
      cbn. apply Hreg_set_lookup_eq.
    + destruct (param_at st0 (editIndex st0)) as [p'|] eqn:Ep; [|reflexivity].
      cbn. apply Hreg_set_lookup_ne.
      unfold param_at in Ep. destruct (Z.leb_spec 0 (editIndex st0)); [|discriminate].
      change (params st0) with (params st) in Ep.
      intros Hr. apply He.
      assert (Z.to_nat (editIndex st0) = i); [|lia].
      apply (NoDup_lookup _ _ _ (reg p) Hnd);
        rewrite list_lookup_fmap; [rewrite Ep | rewrite Hi]; simpl; congruence.
  - unfold onSelectLong. now destruct (screen st0).
Qed.

(** What the encoder switch leaves at index [i]. *)
Lemma handle_encoder_lookup now st i p :
  params st !! i = Some p ->
  params (handle_encoder now st) !! i = Some (rotary_param now st i p).
Proof.
  intros Hi. unfold handle_encoder, rotary_param.
  destruct (now =? encPrev st) eqn:En.
  { simpl. now destruct (screen st). }
  clear En.
  change (screen (set_encPrev st now)) with (screen st).
  destruct (screen st); try exact Hi.
  - cbn. destruct (clamp _ _ _ =? _); exact Hi.
  - change (param_at (set_encPrev st now) (editIndex (set_encPrev st now)))
      with (param_at st (editIndex st)).
    change (encPrev (set_encPrev st now)) with now. cbn [negb andb].
    destruct (Z.eqb_spec (editIndex st) (Z.of_nat i)) as [He | He].
    + rewrite He, param_at_nat, Hi. cbn [andb].
      set (nv := edit_candidate p (to_long (now - encPrev st))).
      destruct (edit_accepts p nv); [|exact Hi].
      cbn [params emit set_params set_encPrev editIndex]. rewrite He, Nat2Z.id.
      apply list_lookup_insert_eq.
      now apply lookup_lt_Some in Hi.
    + cbn [andb].
      destruct (param_at st (editIndex st)) as [p'|] eqn:Ep; [|exact Hi].
      destruct (edit_accepts p' _); [|exact Hi].
      cbn [params emit set_params set_encPrev editIndex].
      rewrite list_lookup_insert_ne; [exact Hi|]. intros H. apply He.
      unfold param_at in Ep. destruct (Z.leb_spec 0 (editIndex st)); [lia|discriminate].
  - cbn. destruct (clamp _ _ _ =? _); exact Hi.
Qed.

Lemma rotary_param_controls now st st' i p :
  same_controls st st' -> rotary_param now st' i p = rotary_param now st i p.
Proof.
  intros (Hs & _ & He & Hp & _). unfold rotary_param. now rewrite Hs, He, Hp.
Qed.

Lemma rotary_param_reg now st i p : reg (rotary_param now st i p) = reg p.
Proof.
  unfold rotary_param. destruct (screen st); try reflexivity.
  now destruct (_ && _).
Qed.

(** C5, as amended: in every pass through [loop] the steps run in the
    order Modbus task, Select handler, Back handler, inbound pass, encoder
    switch, outbound pass, so the inbound pass runs before the outbound
    pass.  For the parameter [p] at index [i] of a store with distinct
    register addresses:
    - the handlers leave [p] alone, and when the inbound pass starts the
      register of [p] holds what the table held after the writes of the
      master, unless Select is handled with the editor open on [p]: then
      it holds the encoding of the local value and the write is lost;
    - the inbound pass stores the clamped candidate of that register if
      the candidate is more than half a step from the value, and keeps [p]
      otherwise; it leaves the table alone;
    - the encoder switch then replaces the value by its one-step edit if
      the editor is open on [p], the encoder moved and the edit passes its
      test, and keeps the parameter otherwise;
    - the outbound pass, when due, leaves in the register the encoding of
      the parameter so obtained; when it is not due, the register keeps
      what the inbound pass read. *)
Theorem inbound_runs_before_outbound (tk : Tick) (st : State) (i : nat) (p : Param) :
  let st0 := mb_task (remote tk) st in
  let st1 := pre_sync tk st in
  let st2 := sync_inbound st1 in
  let st3 := handle_encoder (enc_loop tk) st2 in
  let rv := Hreg_get (hregs st1) (reg p) in
  let absorbed := set_value p (clampf (fromReg p rv) (minVal p) (maxVal p)) in
  let p2 := if inbound_accepts p rv then absorbed else p in
  let q := rotary_param (enc_loop tk) st1 i p2 in
  NoDup (reg <$> params st) ->
  params st !! i = Some p ->
  loop tk st = sync_outbound (millis_test tk) (millis_stamp tk) st3 /\
  params st1 !! i = Some p /\
  hregs st1 !! reg p =
    (if select_saves tk st i then (fun _ => toReg p) <$> hregs st0 !! reg p
     else hregs st0 !! reg p) /\
  params st2 !! i = Some p2 /\ hregs st2 = hregs st1 /\
  params st3 !! i = Some q /\ hregs st3 = hregs st1 /\
  params (loop tk st) !! i = Some q /\
  hregs (loop tk st) !! reg p =
    (if outbound_due (millis_test tk) st
     then (fun _ => toReg q) <$> hregs st1 !! reg p
     else hregs st1 !! reg p).
Proof.
  intros st0 st1 st2 st3 rv absorbed p2 q Hnd Hi.
  destruct (pre_sync_lookup tk st i p Hnd Hi) as [Hi1 Hr1]. fold st1 st0 in Hi1, Hr1.
  destruct (sync_inbound_params st1) as (Hp2 & Hh2 & Hc2). fold st2 in Hp2, Hh2, Hc2.
  assert (Hi2 : params st2 !! i = Some p2).
  { unfold st2. rewrite (sync_inbound_lookup st1 i p Hi1). reflexivity. }
  assert (Hi3 : params st3 !! i = Some q).
  { unfold st3. rewrite (handle_encoder_lookup _ _ _ _ Hi2).
    now rewrite (rotary_param_controls _ st1 st2). }
  assert (Hh3 : hregs st3 = hregs st1).
  { unfold st3. destruct (handle_encoder_frame (enc_loop tk) st2) as (_ & _ & ->).
    exact Hh2. }
  assert (Hr3 : reg <$> params st3 = reg <$> params st).
  { unfold st3. rewrite handle_encoder_regs. unfold st2. rewrite sync_inbound_regs.
    unfold st1. now rewrite pre_sync_params. }
  assert (Ht3 : tSync st3 = tSync st).
  { unfold st3. rewrite handle_encoder_tSync.
    destruct Hc2 as (_ & _ & _ & _ & _ & _ & ->). apply pre_sync_tSync. }
  assert (Hq : reg q = reg p).
  { unfold q. rewrite rotary_param_reg. unfold p2. now destruct (inbound_accepts p rv). }
  split; [reflexivity|]. split; [exact Hi1|]. split; [exact Hr1|].
  split; [exact Hi2|]. split; [exact Hh2|]. split; [exact Hi3|]. split; [exact Hh3|].
  change (loop tk st) with (sync_outbound (millis_test tk) (millis_stamp tk) st3).
  unfold sync_outbound, outbound_due. rewrite Ht3.
  destruct (to_uint32 (millis_test tk - tSync st) >? 300).
  - set (st3' := set_tSync st3 (millis_stamp tk)).
    assert (Hnd3 : NoDup (reg <$> params st3')) by (simpl; now rewrite Hr3).
    rewrite (outbound_pass_params st3' Hnd3). split; [exact Hi3|].
    rewrite <- Hq, (outbound_pass_lookup st3' q Hnd3).
    + simpl. now rewrite Hh3.
    + simpl. now apply list_elem_of_lookup_2 with i.
  - split; [exact Hi3|]. now rewrite Hh3.
Qed.

End Tick.

(** ** The parameter store along a run *)

Section Store.

Context {U : LroundfUnspecified}.

Lemma inbound_param_ok t p : param_ok p -> param_ok (inbound_param t p).
Proof.
  intros [Hb Hin]. unfold inbound_param.
  destruct (inbound_accepts p (Hreg_get t (reg p))) eqn:Ea; [|now split].
  split; [exact Hb|]. unfold in_bounds. simpl. apply andb_true_iff.
  apply clampf_in_range; [exact Hb|].
  apply inbound_accepts_not_nan in Ea.
  destruct (le_not_nan _ _ Hb) as [Hlo Hhi].
  unfold clampf. destruct (F32.lt _ (minVal p)); [exact Hlo|].
  now destruct (F32.gt _ (maxVal p)).
Qed.

Lemma edit_value_ok p diff :
  param_ok p -> edit_accepts p (edit_candidate p diff) = true ->
  param_ok (set_value p (edit_candidate p diff)).
Proof.
  intros [Hb _] Ea. split; [exact Hb|].
  unfold in_bounds. simpl. apply andb_true_iff.
  apply edit_accepts_not_nan in Ea. revert Ea. unfold edit_candidate.
  now apply clampf_in_range.
Qed.

Lemma outbound_steps_params l st :
  params (fold_left outbound_step l st) = params st.
Proof.
  revert st. induction l as [|i l IH]; intros st; [reflexivity|].
  simpl. rewrite IH. unfold outbound_step.
  destruct (params st !! i); [|reflexivity].
  now destruct (_ =? _).
Qed.

(** A pass through [loop] keeps the invariant of the store. *)
Lemma loop_keeps_bounds tk st :
  Forall param_ok (params st) -> Forall param_ok (params (loop tk st)).
Proof.
  intros Hok.
  change (loop tk st) with
    (sync_outbound (millis_test tk) (millis_stamp tk)
       (handle_encoder (enc_loop tk) (sync_inbound (pre_sync tk st)))).
  set (st1 := pre_sync tk st). set (st2 := sync_inbound st1).
  assert (H2 : Forall param_ok (params st2)).
  { destruct (sync_inbound_params st1) as (Hp & _). fold st2 in Hp. rewrite Hp.
    apply Forall_map. unfold st1. rewrite pre_sync_params.
    eapply Forall_impl; [exact Hok|]. intros p. apply inbound_param_ok. }
  assert (H3 : Forall param_ok (params (handle_encoder (enc_loop tk) st2))).
  { destruct (handle_encoder_params (enc_loop tk) st2) as [-> | (p & Hp & Ha & ->)];
      [exact H2|].
    apply Forall_insert; [exact H2|]. apply edit_value_ok; [|exact Ha].
    unfold param_at in Hp. destruct (0 <=? editIndex st2); [|discriminate].
    rewrite Forall_lookup in H2. now apply (H2 _ _ Hp). }
  unfold sync_outbound. destruct (outbound_due _ _); [|exact H3].
  unfold outbound_pass. now rewrite outbound_steps_params.
Qed.

Lemma setup_params encRead : params (setup encRead) = params0.
Proof.
  assert (H : forall l st, params (fold_left preload l st) = params st).
  { induction l as [|i l IH]; intros st; [reflexivity|].
    simpl. rewrite IH. unfold preload. now destruct (params st !! i). }
  assert (He : forall st e, params (set_encPrev st e) = params st) by reflexivity.
  unfold setup. cbv zeta. rewrite He, H. reflexivity.
Qed.

(** From boot on, whatever the inputs, every parameter value is within its
    bounds after every pass through [loop]. *)
Lemma reachable_within_bounds encRead tks :
  Forall param_ok (params (run tks (setup encRead))).
Proof.
  assert (H0 : Forall param_ok (params (setup encRead))).
  { rewrite setup_params. unfold params0.
    repeat (constructor; [split; vm_compute; reflexivity|]). constructor. }
  revert H0. generalize (setup encRead). unfold run.
  induction tks as [|tk tks IH]; intros st Hst; [exact Hst|].
  simpl. apply IH. now apply loop_keeps_bounds.
Qed.

End Store.

(** ** Register codec *)

Section Codec.

Context {U : LroundfUnspecified}.

(** [toReg] is a function into the 16-bit range. *)
Lemma toReg_range p : 0 <= toReg p < 65536.
Proof. unfold toReg, to_uint16. apply Z.mod_pos_bound. reflexivity. Qed.

(** The guard of [toReg]: a negative quotient encodes as 0. *)
Lemma toReg_negative p :
  F32.lt (F32.div (value p) (step p)) F32.zero = true -> toReg p = 0.
Proof. intros H. unfold toReg. rewrite H. reflexivity. Qed.

(** There is no guard on the other side: the rounded quotient is reduced
    modulo 65536 by the cast. *)
Lemma toReg_cast p :
  F32.lt (F32.div (value p) (step p)) F32.zero = false ->
  toReg p = lroundf (F32.div (value p) (step p)) mod 65536.
Proof. intros H. unfold toReg. rewrite H. reflexivity. Qed.

(** C1, on the code: of the 21 probes (seven parameters at [minVal], at
    the midpoint and at [maxVal]) twenty come back within a step, and
    NH3-N at its [maxVal] of 1000 does not: its quotient 100000 does not
    fit 16 bits, [toReg] yields 34464 and [fromReg] decodes that to about
    344.64. *)
Theorem roundtrip_probes :
  map (fun p => (roundtrip_close p (minVal p),
                 roundtrip_close p (midpoint p),
                 roundtrip_close p (maxVal p))) params0
  = [(true, true, true); (true, true, true); (true, true, true);
     (true, true, true); (true, true, true); (true, true, true);
     (true, true, false)] /\
  toReg (set_value NH3N (maxVal NH3N)) = 34464 /\
  fromReg NH3N 34464 = S754_finite false 11293163 (-15) /\
  F32.ge (F32.fabsf (F32.sub (fromReg NH3N 34464) (maxVal NH3N))) (F32.of_Z 655) = true.
Proof. vm_compute. repeat split. Qed.

(** C2, on the code: with NH3-N at 1000, a value inside its bounds, the
    quotient rounds to 100000 and [toReg] returns 100000 mod 65536 = 34464,
    not 65535; one step above 655.35 it returns 0. *)
Theorem toReg_wraps_above_65535 :
  in_bounds (set_value NH3N (F32.of_Z 1000)) = true /\
  lroundf (F32.div (F32.of_Z 1000) (step NH3N)) = 100000 /\
  toReg (set_value NH3N (F32.of_Z 1000)) = 34464 /\
  in_bounds (set_value NH3N (F32.lit 65536 100)) = true /\
  lroundf (F32.div (F32.lit 65536 100) (step NH3N)) = 65536 /\
  toReg (set_value NH3N (F32.lit 65536 100)) = 0.
Proof. vm_compute. repeat split. Qed.

End Codec.

(** * Further properties of the sketch *)

(** ** [clamp] at its two instances *)

Section ClampMore.

(** X1: with ordered bounds the integer [clamp] lands within them, returns
    a value within them untouched, and clamping twice is clamping once. *)
Theorem clamp_within (v lo hi : Z) :
  lo <= hi ->
  lo <= clamp v lo hi <= hi /\
  (lo <= v <= hi -> clamp v lo hi = v) /\
  (v < lo -> clamp v lo hi = lo) /\ (hi < v -> clamp v lo hi = hi) /\
  clamp (clamp v lo hi) lo hi = clamp v lo hi.
Proof.
  intros H. unfold clamp. rewrite !Z.gtb_ltb.
  destruct (Z.ltb_spec v lo) as [A|A];
    [|destruct (Z.ltb_spec hi v) as [B|B]];
    repeat match goal with
    | |- context [?a <? ?b] => destruct (Z.ltb_spec a b)
    end; repeat split; intros; lia.
Qed.

(** X2: the float [clamp] passes a NaN through, since both comparisons are
    false on it; on any other value and ordered bounds the result is within
    the bounds and clamping twice is clamping once. *)
Theorem clampf_nan_and_range (v lo hi : spec_float) :
  (F32.is_nan v = true -> clampf v lo hi = v) /\
  (F32.le lo hi = true -> F32.is_nan v = false ->
     F32.le lo (clampf v lo hi) = true /\ F32.le (clampf v lo hi) hi = true /\
     clampf (clampf v lo hi) lo hi = clampf v lo hi).
Proof.
  split.
  - destruct v; try discriminate. intros _. unfold clampf, F32.lt, F32.gt.
    now destruct lo, hi.
  - intros Hb Hv. destruct (le_not_nan _ _ Hb) as [Hlo Hhi].
    assert (Hn : F32.is_nan (clampf v lo hi) = false).
    { unfold clampf. destruct (F32.lt v lo); [exact Hlo|].
      now destruct (F32.gt v hi). }
    destruct (clampf_in_range v lo hi Hb Hn) as [H1 H2].
    split; [exact H1|]. split; [exact H2|].
    unfold clampf at 1.
    rewrite (le_not_gt _ _ H2).
    assert (H3 : F32.lt (clampf v lo hi) lo = false).
    { apply le_not_gt in H1. exact H1. }
    now rewrite H3.
Qed.

End ClampMore.

(** ** Buttons *)

Section Buttons.

Context {U : LroundfUnspecified}.

(** Outside the parameter editor the encoder switch leaves the parameters
    alone. *)
Lemma handle_encoder_params_other now st :
  screen st <> PARAM_EDIT -> params (handle_encoder now st) = params st.
Proof.
  intros Hs. unfold handle_encoder. destruct (now =? encPrev st); [reflexivity|].
  change (screen (set_encPrev st now)) with (screen st).
  destruct (screen st); try congruence;
    repeat match goal with
    | |- context [if ?b then _ else _] => destruct b
    end; reflexivity.
Qed.

(** X3: Back changes nothing but the screen and the display: parameters,
    register table, serial configuration, cursors, encoder baseline and
    sync clock stay, the one call issued is a redraw, and two Back presses
    lead to [HOME] from every screen. *)
Theorem back_only_navigates (st : State) :
  params (onBack st) = params st /\ hregs (onBack st) = hregs st /\
  scfg (onBack st) = scfg st /\ listIndex (onBack st) = listIndex st /\
  editIndex (onBack st) = editIndex st /\ serialField (onBack st) = serialField st /\
  encPrev (onBack st) = encPrev st /\ tSync (onBack st) = tSync st /\
  (exists e, calls st (onBack st) [e] /\ is_draw e) /\
  screen (onBack (onBack st)) = HOME.
Proof.
  unfold onBack, calls.
  destruct (screen st) eqn:E; repeat (progress (simpl; rewrite ?E));
    repeat split; try (eexists; split; [reflexivity | exact I]).
Qed.

(** X4: from [HOME], [PARAM_LIST] and [SERIAL_MENU], Select followed by
    Back returns to the screen it started from; parameters, register table,
    serial configuration and serial field are as before and the two calls
    issued are redraws.  From [PARAM_LIST] the list cursor is kept too. *)
Theorem select_then_back_returns (st : State) (encRead : Z) :
  screen st <> PARAM_EDIT -> screen st <> SERIAL_EDIT ->
  let st' := onBack (onSelect encRead st) in
  screen st' = screen st /\
  params st' = params st /\ hregs st' = hregs st /\ scfg st' = scfg st /\
  serialField st' = serialField st /\
  (screen st <> HOME -> listIndex st' = listIndex st) /\
  exists e1 e2, calls st st' [e1; e2] /\ is_draw e1 /\ is_draw e2.
Proof.
  intros H1 H2. unfold onBack, onSelect, calls.
  destruct (screen st) eqn:E; try congruence; simpl;
    repeat split; try congruence;
    eexists _, _; rewrite <- app_assoc; repeat split.
Qed.

(** X6: in [SERIAL_EDIT], after any rotation, Back keeps the configuration
    as the rotation left it and issues no reinitialisation, only the redraw
    of the menu; Select issues exactly one reinitialisation, with that
    configuration, and the redraw.  Neither touches the register table or
    the parameters. *)
Theorem serial_apply_or_cancel (st : State) (now encRead : Z) :
  screen st = SERIAL_EDIT ->
  let st1 := handle_encoder now st in
  (screen (onBack st1) = SERIAL_MENU /\ scfg (onBack st1) = scfg st1 /\
   calls st1 (onBack st1) [DrawSerialMenu]) /\
  (screen (onSelect encRead st1) = SERIAL_MENU /\
   scfg (onSelect encRead st1) = scfg st1 /\
   calls st1 (onSelect encRead st1) [Rs485Reinit (scfg st1); DrawSerialMenu]) /\
  hregs (onBack st1) = hregs st /\ hregs (onSelect encRead st1) = hregs st /\
  params (onBack st1) = params st /\ params (onSelect encRead st1) = params st.
Proof.
  intros Hs st1.
  destruct (handle_encoder_frame now st) as (Hs1 & _ & Hh1). fold st1 in Hs1, Hh1.
  rewrite Hs in Hs1.
  assert (Hp1 : params st1 = params st).
  { apply handle_encoder_params_other. rewrite Hs. discriminate. }
  unfold onBack, onSelect, calls. rewrite Hs1. simpl.
  repeat split; try assumption. now rewrite <- app_assoc.
Qed.

End Buttons.

(** ** Encoder *)

Section Encoder.

Lemma set_encPrev_twice st a b : set_encPrev (set_encPrev st a) b = set_encPrev st b.
Proof. reflexivity. Qed.

Lemma edit_candidate_sign p d1 d2 :
  (d1 >? 0) = (d2 >? 0) -> edit_candidate p d1 = edit_candidate p d2.
Proof. intros H. unfold edit_candidate. now rewrite H. Qed.

Lemma serial_edit_sign f d1 d2 c :
  (d1 >? 0) = (d2 >? 0) -> serial_edit f d1 c = serial_edit f d2 c.
Proof. intros H. unfold serial_edit. now rewrite H. Qed.

Lemma handle_encoder_encPrev now st : encPrev (handle_encoder now st) = now.
Proof.
  unfold handle_encoder. destruct (now =? encPrev st) eqn:E.
  - symmetry. now apply Z.eqb_eq.
  - change (screen (set_encPrev st now)) with (screen st).
    destruct (screen st);
      repeat match goal with
      | |- context [if ?b then _ else _] => destruct b
      | |- context [match ?o with Some _ => _ | None => _ end] => destruct o
      end; reflexivity.
Qed.

(** X7: whatever the screen, the encoder step leaves the baseline at the
    position just read, so handling the same position again changes
    nothing; on [HOME] the baseline is all that changes. *)
Theorem encoder_rebaselines (st : State) (now : Z) :
  encPrev (handle_encoder now st) = now /\
  handle_encoder now (handle_encoder now st) = handle_encoder now st /\
  (screen st = HOME -> handle_encoder now st = set_encPrev st now).
Proof.
  split; [apply handle_encoder_encPrev|]. split.
  - rewrite <- (handle_encoder_encPrev now st) at 1. apply handle_encoder_idle.
  - intros Hs. unfold handle_encoder. destruct (now =? encPrev st) eqn:E.
    + apply Z.eqb_eq in E. subst now. now destruct st.
    + change (screen (set_encPrev st now)) with (screen st). now rewrite Hs.
Qed.

(** X8: only the direction of a rotation counts, not its size: two
    positions on the same side of the baseline lead to the same state, up
    to the baseline itself.  A jump of several detents within one pass
    moves a cursor or a value by one place. *)
Theorem encoder_uses_direction_only (st : State) (now1 now2 : Z) :
  now1 <> encPrev st -> now2 <> encPrev st ->
  (to_long (now1 - encPrev st) >? 0) = (to_long (now2 - encPrev st) >? 0) ->
  set_encPrev (handle_encoder now1 st) 0 = set_encPrev (handle_encoder now2 st) 0.
Proof.
  intros H1 H2 Hd. unfold handle_encoder.
  apply Z.eqb_neq in H1. apply Z.eqb_neq in H2. rewrite H1, H2.
  change (screen (set_encPrev st now1)) with (screen st).
  change (screen (set_encPrev st now2)) with (screen st).
  destruct (screen st).
  - reflexivity.
  - change (PARAM_COUNT (set_encPrev st now1)) with (PARAM_COUNT st).
    change (PARAM_COUNT (set_encPrev st now2)) with (PARAM_COUNT st).
    change (listIndex (set_encPrev st now1)) with (listIndex st).
    change (listIndex (set_encPrev st now2)) with (listIndex st).
    rewrite Hd.
    destruct (clamp _ _ _ =? listIndex st); reflexivity.
  - change (param_at (set_encPrev st now1) (editIndex (set_encPrev st now1)))
      with (param_at st (editIndex st)).
    change (param_at (set_encPrev st now2) (editIndex (set_encPrev st now2)))
      with (param_at st (editIndex st)).
    destruct (param_at st (editIndex st)) as [p|]; [|reflexivity].
    rewrite (edit_candidate_sign p _ _ Hd).
    destruct (edit_accepts p _); reflexivity.
  - change (serialField (set_encPrev st now1)) with (serialField st).
    change (serialField (set_encPrev st now2)) with (serialField st).
    rewrite Hd.
    destruct (clamp _ _ _ =? _); reflexivity.
  - change (serialField (set_encPrev st now1)) with (serialField st).
    change (serialField (set_encPrev st now2)) with (serialField st).
    change (scfg (set_encPrev st now1)) with (scfg st).
    change (scfg (set_encPrev st now2)) with (scfg st).
    rewrite (serial_edit_sign _ _ _ _ Hd). reflexivity.
Qed.

(** X9: on [PARAM_LIST] a rotation moves the list cursor one entry up or
    down and stops at the first and the last entry; the list is redrawn
    exactly when the cursor moved.  Parameters, register table and edit
    cursor are not touched. *)
Theorem list_cursor_rotation (st : State) (now : Z) :
  screen st = PARAM_LIST -> now <> encPrev st ->
  0 <= listIndex st < PARAM_COUNT st ->
  let up := to_long (now - encPrev st) >? 0 in
  let st' := handle_encoder now st in
  listIndex st' =
    (if up then Z.min (listIndex st + 1) (PARAM_COUNT st - 1)
     else Z.max (listIndex st - 1) 0) /\
  calls st st' (if listIndex st' =? listIndex st then [] else [DrawParamList]) /\
  params st' = params st /\ hregs st' = hregs st /\ editIndex st' = editIndex st.
Proof.
  intros Hs Hn Hi up st'. unfold st', handle_encoder, calls.
  apply Z.eqb_neq in Hn. rewrite Hn.
  change (screen (set_encPrev st now)) with (screen st). rewrite Hs.
  change (PARAM_COUNT (set_encPrev st now)) with (PARAM_COUNT st).
  change (listIndex (set_encPrev st now)) with (listIndex st). fold up.
  assert (Hc : clamp (listIndex st + (if up then 1 else -1)) 0 (PARAM_COUNT st - 1) =
               if up then Z.min (listIndex st + 1) (PARAM_COUNT st - 1)
               else Z.max (listIndex st - 1) 0).
  { unfold clamp. rewrite Z.gtb_ltb. destruct up;
      repeat match goal with
      | |- context [?a <? ?b] => destruct (Z.ltb_spec a b)
      end; lia. }
  rewrite Hc.
  destruct (_ =? listIndex st) eqn:E; simpl; rewrite ?E, ?Z.eqb_refl, ?app_nil_r;
    repeat split; try reflexivity.
  apply Z.eqb_eq in E. now symmetry.
Qed.

(** X10: on [SERIAL_MENU] a rotation moves the field cursor one field up
    or down through baud, parity, data bits, stop bits and stops at both
    ends; the menu is redrawn exactly when the cursor moved, and the serial
    configuration itself is not touched. *)
Theorem serial_menu_rotation (st : State) (now : Z) :
  screen st = SERIAL_MENU -> now <> encPrev st ->
  let up := to_long (now - encPrev st) >? 0 in
  let st' := handle_encoder now st in
  SerialField_to_int (serialField st') =
    (if up then Z.min (SerialField_to_int (serialField st) + 1) 3
     else Z.max (SerialField_to_int (serialField st) - 1) 0) /\
  calls st st' (if SerialField_to_int (serialField st') =? SerialField_to_int (serialField st)
                then [] else [DrawSerialMenu]) /\
  scfg st' = scfg st /\ params st' = params st /\ hregs st' = hregs st.
Proof.
  intros Hs Hn up st'. unfold st', handle_encoder, calls.
  apply Z.eqb_neq in Hn. rewrite Hn.
  change (screen (set_encPrev st now)) with (screen st). rewrite Hs.
  change (serialField (set_encPrev st now)) with (serialField st).
  unfold up. clear up st'.
  destruct (serialField st) eqn:Ef, (to_long (now - encPrev st) >? 0);
    repeat (progress (simpl; rewrite ?Ef)); repeat split;
    rewrite ?app_nil_r; reflexivity.
Qed.

End Encoder.

(** ** Serial configuration *)

Section SerialMore.

Context {U : LroundfUnspecified}.

Lemma clamp_range v lo hi : lo <= hi -> lo <= clamp v lo hi <= hi.
Proof.
  intros H. unfold clamp. rewrite Z.gtb_ltb.
  destruct (Z.ltb_spec v lo); [lia|]. destruct (Z.ltb_spec hi v); lia.
Qed.

Lemma nth_BAUDS_In k : 0 <= k <= 7 -> In (nth (Z.to_nat k) BAUDS 0) BAUDS.
Proof.
  intros Hk.
  assert (H : k = 0 \/ k = 1 \/ k = 2 \/ k = 3 \/ k = 4 \/ k = 5 \/ k = 6 \/ k = 7) by lia.
  repeat (destruct H as [-> | H]); try subst k; simpl; tauto.
Qed.

Lemma nth_parity_In k : 0 <= k < 3 -> In (nth (Z.to_nat k) parity_order "N"%char) parity_order.
Proof.
  intros Hk. assert (H : k = 0 \/ k = 1 \/ k = 2) by lia.
  repeat (destruct H as [-> | H]); try subst k; simpl; tauto.
Qed.

(** Whatever the configuration was, the field an edit writes is one of the
    listed choices. *)
Lemma serial_edit_field_valid f diff c :
  match f with
  | BAUD => In (baud (serial_edit f diff c)) BAUDS
  | PARITY => In (parity (serial_edit f diff c)) parity_order
  | DATABITS => dataBits (serial_edit f diff c) = 7 \/ dataBits (serial_edit f diff c) = 8
  | STOPBITS => stopBits (serial_edit f diff c) = 1 \/ stopBits (serial_edit f diff c) = 2
  end.
Proof.
  destruct f; unfold serial_edit; cbn [baud parity dataBits stopBits set_baud
    set_parity set_dataBits set_stopBits].
  - apply nth_BAUDS_In. change (BAUD_COUNT - 1) with 7. apply clamp_range. lia.
  - apply nth_parity_In. apply Z.mod_pos_bound. lia.
  - destruct (diff >? 0); tauto.
  - destruct (diff >? 0); tauto.
Qed.

Lemma serial_edit_valid f diff c : valid_cfg c -> valid_cfg (serial_edit f diff c).
Proof.
  intros (Hb & Hd & Hp & Hs).
  pose proof (serial_edit_field_valid f diff c) as Hf.
  destruct f; unfold valid_cfg; unfold serial_edit in *;
    cbn [baud parity dataBits stopBits set_baud set_parity set_dataBits set_stopBits] in *;
    repeat split; assumption.
Qed.

Lemma outbound_steps_frame l st :
  same_controls st (fold_left outbound_step l st).
Proof.
  revert st. induction l as [|i l IH]; intros st; [apply same_controls_refl|].
  simpl. eapply same_controls_trans; [|apply IH].
  unfold outbound_step. destruct (params st !! i); [|apply same_controls_refl].
  destruct (_ =? _); [apply same_controls_refl | repeat split].
Qed.

Lemma pre_sync_scfg tk st : scfg (pre_sync tk st) = scfg st.
Proof.
  unfold pre_sync, btnBack_loop, btnSelect_loop, onBack, onSelect, onSelectLong.
  destruct (back tk), (sel tk) as [[]|]; simpl;
    repeat match goal with
    | |- context [match screen ?s with _ => _ end] => destruct (screen s)
    | |- context [match param_at ?s ?i with _ => _ end] => destruct (param_at s i)
    end; reflexivity.
Qed.

Lemma handle_encoder_scfg now st :
  scfg (handle_encoder now st) = scfg st \/
  exists f diff, scfg (handle_encoder now st) = serial_edit f diff (scfg st).
Proof.
  unfold handle_encoder. destruct (now =? encPrev st); [now left|].
  change (screen (set_encPrev st now)) with (screen st).
  destruct (screen st);
    repeat match goal with
    | |- context [if ?b then _ else _] => destruct b
    | |- context [match ?o with Some _ => _ | None => _ end] => destruct o
    end; try (now left).
  right. eexists _, _. reflexivity.
Qed.

Lemma sync_outbound_scfg a b st : scfg (sync_outbound a b st) = scfg st.
Proof.
  unfold sync_outbound. destruct (outbound_due a st); [|reflexivity].
  unfold outbound_pass.
  destruct (outbound_steps_frame (seq 0 (length (params (set_tSync st b)))) (set_tSync st b))
    as (_ & _ & _ & _ & H & _).
  exact H.
Qed.

Lemma loop_keeps_valid_cfg tk st : valid_cfg (scfg st) -> valid_cfg (scfg (loop tk st)).
Proof.
  intros Hv.
  change (loop tk st) with
    (sync_outbound (millis_test tk) (millis_stamp tk)
       (handle_encoder (enc_loop tk) (sync_inbound (pre_sync tk st)))).
  rewrite sync_outbound_scfg.
  destruct (sync_inbound_params (pre_sync tk st)) as (_ & _ & (_ & _ & _ & _ & Hc & _)).
  rewrite pre_sync_scfg in Hc.
  destruct (handle_encoder_scfg (enc_loop tk) (sync_inbound (pre_sync tk st)))
    as [-> | (f & d & ->)]; rewrite Hc; [exact Hv|].
  now apply serial_edit_valid.
Qed.

(** X11: the serial editor cannot produce a configuration outside the
    choice sets.  The field it writes is a listed choice even when the old
    content was not (an unknown baud counts as 1200, an unknown parity steps
    to E or O), and from boot on the configuration is valid after every pass
    through [loop], whatever the inputs. *)
Theorem serial_config_stays_valid :
  (forall f diff c,
     match f with
     | BAUD => In (baud (serial_edit f diff c)) BAUDS
     | PARITY => In (parity (serial_edit f diff c)) parity_order
     | DATABITS => dataBits (serial_edit f diff c) = 7 \/ dataBits (serial_edit f diff c) = 8
     | STOPBITS => stopBits (serial_edit f diff c) = 1 \/ stopBits (serial_edit f diff c) = 2
     end) /\
  (forall tk st, valid_cfg (scfg st) -> valid_cfg (scfg (loop tk st))) /\
  (forall encRead tks, valid_cfg (scfg (run tks (setup encRead)))).
Proof.
  split; [exact serial_edit_field_valid|]. split; [exact loop_keeps_valid_cfg|].
  intros encRead tks.
  assert (H0 : valid_cfg (scfg (setup encRead))).
  { assert (Hs : scfg (setup encRead) = scfg0).
    { unfold setup. cbv zeta.
      assert (H : forall l st, scfg (fold_left preload l st) = scfg st).
      { induction l as [|i l IH]; intros st; [reflexivity|].
        simpl. rewrite IH. unfold preload. now destruct (params st !! i). }
      assert (He : forall st e, scfg (set_encPrev st e) = scfg st) by reflexivity.
      rewrite He, H. reflexivity. }
    rewrite Hs. unfold valid_cfg, scfg0. simpl. tauto. }
  revert H0. generalize (setup encRead). unfold run.
  induction tks as [|tk tks IH]; intros st Hst; [exact Hst|].
  simpl. apply IH. now apply loop_keeps_valid_cfg.
Qed.

(** X12: stepping a listed parity forth and back, or three times the same
    way, gives the configuration back.  For a listed baud a step up and a
    step down cancel unless the clamp intervened: at 115200 a step up
    changes nothing and at 1200 a step down changes nothing. *)
Theorem serial_edit_round_trips (c : SerialCfg) (up dn : Z) :
  (up >? 0) = true -> (dn >? 0) = false ->
  (In (parity c) parity_order ->
     serial_edit PARITY dn (serial_edit PARITY up c) = c /\
     serial_edit PARITY up (serial_edit PARITY dn c) = c /\
     serial_edit PARITY up (serial_edit PARITY up (serial_edit PARITY up c)) = c /\
     serial_edit PARITY dn (serial_edit PARITY dn (serial_edit PARITY dn c)) = c) /\
  (In (baud c) BAUDS ->
     (baud c <> 115200 -> serial_edit BAUD dn (serial_edit BAUD up c) = c) /\
     (baud c <> 1200 -> serial_edit BAUD up (serial_edit BAUD dn c) = c) /\
     (baud c = 115200 -> serial_edit BAUD up c = c) /\
     (baud c = 1200 -> serial_edit BAUD dn c = c)).
Proof.
  intros Hu Hd. destruct c as [b d p s]. split.
  - simpl. intros H. unfold serial_edit. rewrite Hu, Hd.
    cbn [parity set_parity baud dataBits stopBits].
    repeat (destruct H as [<- | H]); [| | |destruct H]; repeat split; reflexivity.
  - simpl. intros H. unfold serial_edit. rewrite Hu, Hd.
    cbn [parity set_baud baud dataBits stopBits].
    repeat (destruct H as [<- | H]); [| | | | | | | |destruct H];
      repeat split; intros; try congruence; reflexivity.
Qed.

End SerialMore.

Section UartModesFacts.

Variable m7N1 m7N2 m7E1 m7E2 m7O1 m7O2 m8N1 m8N2 m8E1 m8E2 m8O1 m8O2 : Z.

Local Abbreviation mode := (parityToMode m7N1 m7N2 m7E1 m7E2 m7O1 m7O2 m8N1 m8N2 m8E1 m8E2 m8O1 m8O2).
Local Abbreviation words := (mode_words m7N1 m7N2 m7E1 m7E2 m7O1 m7O2 m8N1 m8N2 m8E1 m8E2 m8O1 m8O2).

Lemma parityToMode_lookup p d s : words !! mode_index p d s = Some (mode p d s).
Proof.
  unfold parityToMode, mode_index.
  destruct (d =? 7), (Ascii.eqb p "E"), (Ascii.eqb p "O"), (s =? 2); reflexivity.
Qed.

(** X13: [parityToMode] reads its arguments only through three tests: a
    parity other than E and O selects the no-parity word, data bits other
    than 7 the 8-bit word, stop bits other than 2 the one-stop word.  When
    the twelve mode words are pairwise distinct, two configurations within
    the choice sets that get the same word are the same configuration. *)
Theorem parityToMode_faithful (c1 c2 : SerialCfg) :
  NoDup words ->
  (dataBits c1 = 7 \/ dataBits c1 = 8) -> In (parity c1) parity_order ->
  (stopBits c1 = 1 \/ stopBits c1 = 2) ->
  (dataBits c2 = 7 \/ dataBits c2 = 8) -> In (parity c2) parity_order ->
  (stopBits c2 = 1 \/ stopBits c2 = 2) ->
  (mode (parity c1) (dataBits c1) (stopBits c1) =
   mode (parity c2) (dataBits c2) (stopBits c2) ->
   dataBits c1 = dataBits c2 /\ parity c1 = parity c2 /\ stopBits c1 = stopBits c2) /\
  (forall p d s,
     mode p d s =
     mode (if Ascii.eqb p "E" then "E" else if Ascii.eqb p "O" then "O" else "N")%char
          (if d =? 7 then 7 else 8) (if s =? 2 then 2 else 1)).
Proof.
  intros Hnd Hd1 Hp1 Hs1 Hd2 Hp2 Hs2. split.
  - intros Heq.
    pose proof (parityToMode_lookup (parity c1) (dataBits c1) (stopBits c1)) as L1.
    pose proof (parityToMode_lookup (parity c2) (dataBits c2) (stopBits c2)) as L2.
    rewrite <- Heq in L2.
    pose proof (proj1 (NoDup_alt words) Hnd _ _ _ L1 L2) as Hi.
    clear L1 L2 Heq. revert Hi. simpl in Hp1, Hp2.
    destruct Hd1 as [-> | ->], Hd2 as [-> | ->],
             Hs1 as [-> | ->], Hs2 as [-> | ->];
      repeat (destruct Hp1 as [<- | Hp1]); try (destruct Hp1);
      repeat (destruct Hp2 as [<- | Hp2]); try (destruct Hp2);
      vm_compute; intros; try discriminate; repeat split.
  - intros p d s. unfold parityToMode.
    destruct (d =? 7), (Ascii.eqb p "E") eqn:E1, (Ascii.eqb p "O") eqn:E2, (s =? 2);
      reflexivity.
Qed.

End UartModesFacts.

(** ** The sync passes *)

Section SyncMore.

Context {U : LroundfUnspecified}.

(** When every register mirrors its parameter the outbound loop changes
    nothing. *)
Lemma outbound_steps_mirrored l st :
  (forall p, p ∈ params st -> Hreg_get (hregs st) (reg p) = toReg p) ->
  fold_left outbound_step l st = st.
Proof.
  intros Hm. induction l as [|i l IH]; [reflexivity|].
  simpl. assert (Hs : outbound_step st i = st).
  { unfold outbound_step. destruct (params st !! i) as [p|] eqn:E; [|reflexivity].
    rewrite (Hm p), Z.eqb_refl; [reflexivity|].
    now apply list_elem_of_lookup_2 with i. }
  now rewrite Hs.
Qed.

(** X14: over parameters with distinct addresses whose registers exist, the
    outbound pass leaves every register equal to the encoding of its
    parameter, and a second pass right after it changes nothing and issues
    no call. *)
Theorem outbound_pass_mirrors (st : State) :
  NoDup (reg <$> params st) ->
  (forall p, p ∈ params st -> is_Some (hregs st !! reg p)) ->
  (forall p, p ∈ params st -> Hreg_get (hregs (outbound_pass st)) (reg p) = toReg p) /\
  outbound_pass (outbound_pass st) = outbound_pass st.
Proof.
  intros Hnd Hex.
  assert (Hm : forall p, p ∈ params st ->
                 Hreg_get (hregs (outbound_pass st)) (reg p) = toReg p).
  { intros p Hp. unfold Hreg_get. rewrite (outbound_pass_lookup st p Hnd Hp).
    destruct (Hex p Hp) as [v ->]. reflexivity. }
  split; [exact Hm|].
  unfold outbound_pass at 1. apply outbound_steps_mirrored.
  rewrite (outbound_pass_params st Hnd). exact Hm.
Qed.

Lemma outbound_pass_tSync st : tSync (outbound_pass st) = tSync st.
Proof.
  unfold outbound_pass.
  destruct (outbound_steps_frame (seq 0 (length (params st))) st)
    as (_ & _ & _ & _ & _ & _ & H).
  exact H.
Qed.

(** X15: the throttle.  A pass that is not due leaves the state alone; a
    pass that ran stamps [tSync], and as long as the 32-bit difference
    between the clock and that stamp is at most 300 no further pass runs,
    also across a wrap of the millisecond counter. *)
Theorem outbound_throttle (st : State) (ms stamp ms' stamp' : Z) :
  (outbound_due ms st = false -> sync_outbound ms stamp st = st) /\
  (outbound_due ms st = true ->
     tSync (sync_outbound ms stamp st) = stamp /\
     ((ms' - stamp) mod 2 ^ 32 <= 300 ->
        sync_outbound ms' stamp' (sync_outbound ms stamp st) = sync_outbound ms stamp st)).
Proof.
  unfold sync_outbound. split.
  - now intros ->.
  - intros ->. rewrite outbound_pass_tSync. split; [reflexivity|].
    intros Hle. unfold outbound_due. rewrite outbound_pass_tSync.
    cbn [tSync set_tSync]. unfold to_uint32.
    destruct (Z.gtb_spec ((ms' - stamp) mod 2 ^ 32) 300); [lia | reflexivity].
Qed.

Lemma inbound_param_idem t p : inbound_param t (inbound_param t p) = inbound_param t p.
Proof.
  unfold inbound_param at 2.
  destruct (inbound_accepts p (Hreg_get t (reg p))) eqn:Ea.
  - unfold inbound_param. cbn [reg minVal maxVal set_value].
    change (fromReg (set_value p ?x) ?r) with (fromReg p r).
    rewrite Ea. now destruct (inbound_accepts (set_value p _) _).
  - unfold inbound_param. now rewrite Ea.
Qed.

(** X16: the inbound pass is idempotent on the parameter store: running it
    again over the same table assigns nothing new. *)
Theorem sync_inbound_idempotent (st : State) :
  params (sync_inbound (sync_inbound st)) = params (sync_inbound st) /\
  hregs (sync_inbound (sync_inbound st)) = hregs st.
Proof.
  destruct (sync_inbound_params st) as (Hp & Hh & _).
  destruct (sync_inbound_params (sync_inbound st)) as (Hp2 & Hh2 & _).
  split; [|now rewrite Hh2].
  rewrite Hp2, Hh, Hp. apply list_eq. intros j. rewrite !list_lookup_fmap.
  destruct (params st !! j); simpl; [|reflexivity].
  now rewrite inbound_param_idem.
Qed.

(** X17: an edit made by the encoder does not survive the inbound pass of
    the next tick unless the register was brought up to date in between:
    when the register still holds a raw value whose candidate is more than
    half a step from the edited value, the inbound pass puts the clamped
    candidate back in place of the edit. *)
Theorem edit_undone_by_inbound (st : State) (now : Z) (p : Param) :
  screen st = PARAM_EDIT -> param_at st (editIndex st) = Some p ->
  now <> encPrev st ->
  let nv := edit_candidate p (to_long (now - encPrev st)) in
  let rv := Hreg_get (hregs st) (reg p) in
  edit_accepts p nv = true ->
  inbound_accepts (set_value p nv) rv = true ->
  param_at (handle_encoder now st) (editIndex st) = Some (set_value p nv) /\
  param_at (sync_inbound (handle_encoder now st)) (editIndex st) =
    Some (set_value p (clampf (fromReg p rv) (minVal p) (maxVal p))).
Proof.
  intros Hs Hp Hn nv rv Ha Hi.
  destruct (handle_encoder_edit now st p Hs Hp Hn) as [Hlk Hh].
  cbn zeta in Hlk. fold nv in Hlk. rewrite Ha in Hlk.
  split; [exact Hlk|].
  unfold param_at in *. destruct (0 <=? editIndex st); [|discriminate].
  rewrite (sync_inbound_lookup _ _ _ Hlk). f_equal.
  unfold inbound_param. rewrite Hh. cbn [reg set_value]. fold rv. rewrite Hi.
  reflexivity.
Qed.

End SyncMore.

(** ** Calls issued *)

Section Calls.

Context {U : LroundfUnspecified}.

Lemma calls_refl st : calls st st [].
Proof. unfold calls. now rewrite app_nil_r. Qed.

Lemma calls_trans st1 st2 st3 l1 l2 :
  calls st1 st2 l1 -> calls st2 st3 l2 -> calls st1 st3 (l1 ++ l2).
Proof. unfold calls. intros H1 H2. now rewrite H2, H1, app_assoc. Qed.

Lemma inbound_calls_draw st i p e : In e (inbound_calls st i p) -> is_draw e.
Proof.
  unfold inbound_calls. destruct (inbound_accepts _ _); [|intros []].
  destruct (screen st); try destruct (_ =? _); simpl;
    intros H; repeat destruct H as [<- | H]; try exact I; contradiction.
Qed.

Lemma inbound_prefix_calls n st :
  (n <= length (params st))%nat ->
  calls st (fold_left inbound_step (seq 0 n) st)
        (concat (imap (inbound_calls st) (take n (params st)))).
Proof.
  induction n as [|n IH]; intros Hn.
  - simpl. apply calls_refl.
  - rewrite seq_S, fold_left_app. simpl.
    destruct (inbound_prefix n st) as (Hp & Hh & Hc); [lia|]. cbn zeta in Hp, Hh, Hc.
    set (st1 := fold_left inbound_step (seq 0 n) st) in *.
    destruct (lookup_lt_is_Some_2 (params st) n) as [p Hlk]; [lia|].
    assert (Hlen : length (map (inbound_param (hregs st)) (take n (params st))) = n).
    { rewrite length_map, length_take. lia. }
    assert (Hlk1 : params st1 !! n = Some p).
    { rewrite Hp, lookup_app_r by lia. rewrite Hlen, Nat.sub_diag.
      rewrite lookup_drop. now rewrite Nat.add_0_r. }
    rewrite (take_S_r _ _ _ Hlk), imap_app, concat_app.
    apply calls_trans with st1; [apply IH; lia|].
    assert (Ht : length (take n (params st)) = n) by (rewrite length_take; lia).
    simpl. rewrite Ht, Nat.add_0_r, app_nil_r.
    destruct Hc as (Hsc & _ & Hei & _).
    unfold inbound_step, inbound_calls, calls. rewrite Hlk1, Hh.
    destruct (inbound_accepts p (Hreg_get (hregs st) (reg p))); [|now rewrite app_nil_r].
    unfold inbound_redraw.
    change (screen (set_params st1 ?x)) with (screen st1).
    change (editIndex (set_params st1 ?x)) with (editIndex st1).
    rewrite Hsc, Hei.
    destruct (screen st); try destruct (editIndex st =? Z.of_nat n);
      simpl; rewrite ?app_nil_r; reflexivity.
Qed.

(** X18: the calls of the inbound pass are redraws, one for each parameter
    it accepts that the screen shows: every accepted parameter redraws
    [HOME] or [PARAM_LIST], only the edited one redraws [PARAM_EDIT], and
    on the two serial screens nothing is issued.  The register table is not
    touched. *)
Theorem sync_inbound_calls (st : State) :
  calls st (sync_inbound st) (concat (imap (inbound_calls st) (params st))) /\
  (forall e, In e (concat (imap (inbound_calls st) (params st))) -> is_draw e) /\
  (screen st = SERIAL_MENU \/ screen st = SERIAL_EDIT ->
     trace (sync_inbound st) = trace st) /\
  hregs (sync_inbound st) = hregs st.
Proof.
  pose proof (inbound_prefix_calls (length (params st)) st (le_n _)) as Hc.
  rewrite take_ge in Hc by lia. fold (sync_inbound st) in Hc.
  split; [exact Hc|]. split; [|split].
  - intros e He. apply in_concat in He. destruct He as (l & Hl & He).
    apply list_elem_of_In, elem_of_lookup_imap in Hl.
    destruct Hl as (i & p & -> & _). now apply inbound_calls_draw in He.
  - intros Hs. rewrite Hc.
    assert (Hn : forall l k, concat (imap (fun i => inbound_calls st (k + i)) l) = []).
    { induction l as [|p l IH]; intros k; [reflexivity|].
      rewrite imap_cons. simpl.
      assert (He : inbound_calls st (k + 0) p = []).
      { unfold inbound_calls. destruct (inbound_accepts _ _); [|reflexivity].
        now destruct Hs as [-> | ->]. }
      rewrite He. simpl.
      rewrite <- (IH (S k)). f_equal. apply imap_ext. intros i x _. simpl.
      f_equal. lia. }
    specialize (Hn (params st) 0%nat).
    change (concat (imap (inbound_calls st) (params st)) = []) in Hn.
    rewrite Hn. apply app_nil_r.
  - now destruct (sync_inbound_params st) as (_ & Hh & _).
Qed.

Lemma select_calls tk st :
  exists l, calls st (btnSelect_loop tk st) l /\
    (forall c, In (Rs485Reinit c) l ->
       sel tk = Some Pressed /\ screen st = SERIAL_EDIT /\ c = scfg st) /\
    (forall a v, In (HregWrite a v) l -> sel tk = Some Pressed /\ screen st = PARAM_EDIT).
Proof.
  unfold btnSelect_loop, onSelect, onSelectLong, calls.
  destruct (sel tk) as [[]|]; destruct (screen st) eqn:Es;
    try destruct (param_at st (editIndex st));
    eexists; (split; [simpl; rewrite <- ?app_assoc; try reflexivity;
                      symmetry; apply app_nil_r|]);
    simpl; split; intros; intuition (try discriminate; try congruence).
Qed.

Lemma back_calls tk st :
  exists l, calls st (btnBack_loop tk st) l /\ forall e, In e l -> is_draw e.
Proof.
  unfold btnBack_loop, onBack, calls.
  destruct (back tk); [destruct (screen st)|];
    eexists; (split; [simpl; try reflexivity; symmetry; apply app_nil_r|]);
    simpl; intros e H; repeat destruct H as [<- | H]; try exact I; contradiction.
Qed.

Lemma encoder_calls now st :
  exists l, calls st (handle_encoder now st) l /\ forall e, In e l -> is_draw e.
Proof.
  unfold handle_encoder, calls. destruct (now =? encPrev st).
  - exists []. split; [now rewrite app_nil_r | intros e []].
  - change (screen (set_encPrev st now)) with (screen st).
    destruct (screen st);
      repeat match goal with
      | |- context [if ?b then _ else _] => destruct b
      | |- context [match ?o with Some _ => _ | None => _ end] => destruct o
      end;
      eexists; (split; [simpl; try reflexivity; symmetry; apply app_nil_r|]);
      simpl; intros e H; repeat destruct H as [<- | H]; try exact I; contradiction.
Qed.

Lemma outbound_steps_calls l st :
  exists w, calls st (fold_left outbound_step l st) w /\ forall e, In e w -> is_write e.
Proof.
  revert st. induction l as [|i l IH]; intros st.
  - exists []. split; [apply calls_refl | intros e []].
  - simpl. destruct (IH (outbound_step st i)) as (w & Hw & Hf).
    assert (H1 : exists w1, calls st (outbound_step st i) w1 /\
                   forall e, In e w1 -> is_write e).
    { unfold outbound_step, calls. destruct (params st !! i); [destruct (_ =? _)|];
        eexists; (split; [simpl; try reflexivity; symmetry; apply app_nil_r|]);
        simpl; intros e H; repeat destruct H as [<- | H]; try exact I; contradiction. }
    destruct H1 as (w1 & Hw1 & Hf1). exists (w1 ++ w). split.
    + eapply calls_trans; eassumption.
    + intros e He. apply in_app_or in He. destruct He; auto.
Qed.

(** X19: what a pass through [loop] may call.  The RS-485 link is
    reinitialised only by a Select press on [SERIAL_EDIT], and then with
    the configuration held at that moment; a holding register is written
    only by a Select press on [PARAM_EDIT] or by an outbound pass that is
    due.  Everything else a tick issues is a redraw. *)
Theorem loop_calls (tk : Tick) (st : State) :
  exists l, calls st (loop tk st) l /\
    (forall c, In (Rs485Reinit c) l ->
       sel tk = Some Pressed /\ screen st = SERIAL_EDIT /\ c = scfg st) /\
    (forall a v, In (HregWrite a v) l ->
       (sel tk = Some Pressed /\ screen st = PARAM_EDIT) \/
       outbound_due (millis_test tk) st = true).
Proof.
  change (loop tk st) with
    (sync_outbound (millis_test tk) (millis_stamp tk)
       (handle_encoder (enc_loop tk) (sync_inbound (pre_sync tk st)))).
  set (st0 := mb_task (remote tk) st).
  set (st1 := pre_sync tk st).
  set (st2 := sync_inbound st1). set (st3 := handle_encoder (enc_loop tk) st2).
  destruct (select_calls tk st0) as (l1 & H1 & R1 & W1).
  destruct (back_calls tk (btnSelect_loop tk st0)) as (l2 & H2 & D2).
  destruct (sync_inbound_params st1) as (_ & _ & (_ & _ & _ & _ & _ & _ & Ts2)).
  pose proof (inbound_prefix_calls (length (params st1)) st1 (le_n _)) as H3.
  rewrite take_ge in H3 by lia. fold (sync_inbound st1) in H3. fold st2 in H3, Ts2.
  set (l3 := concat (imap (inbound_calls st1) (params st1))) in *.
  assert (D3 : forall e, In e l3 -> is_draw e).
  { intros e He. apply in_concat in He. destruct He as (l & Hl & He).
    apply list_elem_of_In, elem_of_lookup_imap in Hl.
    destruct Hl as (i & p & -> & _). now apply inbound_calls_draw in He. }
  destruct (encoder_calls (enc_loop tk) st2) as (l4 & H4 & D4). fold st3 in H4.
  assert (Ts3 : tSync st3 = tSync st).
  { unfold st3. rewrite handle_encoder_tSync, Ts2. apply pre_sync_tSync. }
  assert (H5 : exists l5, calls st3 (sync_outbound (millis_test tk) (millis_stamp tk) st3) l5 /\
                 (forall e, In e l5 -> is_write e) /\
                 (outbound_due (millis_test tk) st = false -> l5 = [])).
  { unfold sync_outbound.
    assert (Hd : outbound_due (millis_test tk) st3 = outbound_due (millis_test tk) st).
    { unfold outbound_due. now rewrite Ts3. }
    rewrite Hd. destruct (outbound_due (millis_test tk) st).
    - destruct (outbound_steps_calls
                  (seq 0 (length (params (set_tSync st3 (millis_stamp tk)))))
                  (set_tSync st3 (millis_stamp tk))) as (w & Hw & Hf).
      exists w. split; [exact Hw|]. split; [exact Hf | discriminate].
    - exists []. split; [apply calls_refl|]. split; [intros e []|reflexivity]. }
  destruct H5 as (l5 & H5 & W5 & N5).
  exists (l1 ++ l2 ++ l3 ++ l4 ++ l5). split.
  - assert (H0 : calls st st0 []) by (unfold calls; simpl; now rewrite app_nil_r).
    pose proof (calls_trans _ _ _ _ _ H0
                  (calls_trans _ _ _ _ _ H1
                     (calls_trans _ _ _ _ _ H2
                        (calls_trans _ _ _ _ _ H3 (calls_trans _ _ _ _ _ H4 H5))))) as H.
    exact H.
  - split.
    + intros c Hc. apply in_app_or in Hc. destruct Hc as [Hc | Hc]; [exact (R1 c Hc)|].
      exfalso. repeat (apply in_app_or in Hc; destruct Hc as [Hc | Hc]).
      * now apply D2 in Hc.
      * now apply D3 in Hc.
      * now apply D4 in Hc.
      * now apply W5 in Hc.
    + intros a v Hc. apply in_app_or in Hc. destruct Hc as [Hc | Hc];
        [left; exact (W1 a v Hc)|].
      repeat (apply in_app_or in Hc; destruct Hc as [Hc | Hc]).
      * now apply D2 in Hc.
      * now apply D3 in Hc.
      * now apply D4 in Hc.
      * right. destruct (outbound_due (millis_test tk) st); [reflexivity|].
        rewrite N5 in Hc by reflexivity. destruct Hc.
Qed.

End Calls.

(** ** What holds along every run *)

Section Runs.

Context {U : LroundfUnspecified}.

Lemma Hreg_set_dom (t : gmap Z Z) a v : dom (Hreg_set t a v) = dom t.
Proof.
  unfold Hreg_set. destruct (t !! a) eqn:E; [|reflexivity].
  rewrite dom_insert_L. assert (Ha : a ∈ dom t) by (apply elem_of_dom; eauto).
  apply set_eq. intros b. rewrite elem_of_union, elem_of_singleton.
  split; [intros [-> | H]; assumption | now right].
Qed.

Lemma Hreg_set_table16 (t : gmap Z Z) a v :
  0 <= v < 65536 -> table16 t -> table16 (Hreg_set t a v).
Proof.
  intros Hv Ht b w. destruct (decide (a = b)) as [<- | Hne].
  - rewrite Hreg_set_lookup_eq. destruct (t !! a); simpl; [|discriminate].
    intros [= <-]. exact Hv.
  - rewrite Hreg_set_lookup_ne by exact Hne. apply Ht.
Qed.

Lemma table_kept_refl st : table_kept st st.
Proof. now split. Qed.

Lemma table_kept_same st st' : hregs st' = hregs st -> table_kept st st'.
Proof. intros H. unfold table_kept. rewrite H. now split. Qed.

Lemma table_kept_trans st1 st2 st3 :
  table_kept st1 st2 -> table_kept st2 st3 -> table_kept st1 st3.
Proof. intros [A B] [C D]. split; [congruence | auto]. Qed.

Lemma table_kept_write st a p :
  table_kept st (mb_Hreg_write a (toReg p) st).
Proof.
  split; simpl; [apply Hreg_set_dom|]. apply Hreg_set_table16, toReg_range.
Qed.

Lemma mb_task_table ws st : table_kept st (mb_task ws st).
Proof.
  unfold mb_task, table_kept. cbn [hregs set_hregs]. generalize (hregs st).
  induction ws as [|w ws IH]; intros t; [now split|].
  simpl. destruct (IH (Hreg_set t w.1 (to_uint16 w.2))) as [A B]. split.
  - rewrite A. apply Hreg_set_dom.
  - intros Ht. apply B, Hreg_set_table16; [|exact Ht].
    unfold to_uint16. apply Z.mod_pos_bound. reflexivity.
Qed.

Lemma pre_sync_table tk st : table_kept st (pre_sync tk st).
Proof.
  unfold pre_sync.
  apply table_kept_trans with (mb_task (remote tk) st); [apply mb_task_table|].
  generalize (mb_task (remote tk) st). intros s.
  apply table_kept_trans with (btnSelect_loop tk s).
  - unfold btnSelect_loop, onSelect, onSelectLong.
    destruct (sel tk) as [[]|]; [| |apply table_kept_refl];
      destruct (screen s); try (now apply table_kept_same).
    destruct (param_at s (editIndex s)) as [p|]; [|now apply table_kept_same].
    apply table_kept_trans with (mb_Hreg_write (reg p) (toReg p) s);
      [apply table_kept_write | now apply table_kept_same].
  - unfold btnBack_loop, onBack.
    destruct (back tk); [destruct (screen _)|]; now apply table_kept_same.
Qed.

Lemma outbound_steps_table l st : table_kept st (fold_left outbound_step l st).
Proof.
  revert st. induction l as [|i l IH]; intros st; [apply table_kept_refl|].
  simpl. apply table_kept_trans with (outbound_step st i); [|apply IH].
  unfold outbound_step. destruct (params st !! i) as [p|]; [|apply table_kept_refl].
  destruct (_ =? _); [apply table_kept_refl | apply table_kept_write].
Qed.

Lemma loop_table tk st : table_kept st (loop tk st).
Proof.
  change (loop tk st) with
    (sync_outbound (millis_test tk) (millis_stamp tk)
       (handle_encoder (enc_loop tk) (sync_inbound (pre_sync tk st)))).
  set (st1 := pre_sync tk st). set (st2 := sync_inbound st1).
  set (st3 := handle_encoder (enc_loop tk) st2).
  apply table_kept_trans with st1; [apply pre_sync_table|].
  apply table_kept_trans with st2.
  { apply table_kept_same. now destruct (sync_inbound_params st1) as (_ & H & _). }
  apply table_kept_trans with st3.
  { apply table_kept_same.
    now destruct (handle_encoder_frame (enc_loop tk) st2) as (_ & _ & H). }
  unfold sync_outbound. destruct (outbound_due _ _); [|apply table_kept_refl].
  apply table_kept_trans with (set_tSync st3 (millis_stamp tk));
    [now apply table_kept_same | apply outbound_steps_table].
Qed.

Lemma setup_hregs encRead :
  hregs (setup encRead) =
  list_to_map [(1, 700); (2, 500); (3, 100); (4, 200); (5, 50); (6, 800); (7, 500)].
Proof. vm_compute. reflexivity. Qed.

(** X20: the register table keeps its shape.  A pass through [loop] never
    adds or removes a register and keeps every entry within 16 bits; from
    boot on the table has exactly the addresses 1 to 7, so a write of the
    master to any other address is dropped and such an address reads 0. *)
Theorem table_shape_along_runs :
  (forall tk st, dom (hregs (loop tk st)) = dom (hregs st) /\
                 (table16 (hregs st) -> table16 (hregs (loop tk st)))) /\
  (forall encRead tks,
     let t := hregs (run tks (setup encRead)) in
     dom t = list_to_set [1; 2; 3; 4; 5; 6; 7] /\ table16 t /\
     forall a, ~ 1 <= a <= 7 -> Hreg_get t a = 0).
Proof.
  split; [exact loop_table|].
  intros encRead tks t.
  assert (H0 : dom (hregs (setup encRead)) = list_to_set [1; 2; 3; 4; 5; 6; 7] /\
               table16 (hregs (setup encRead))).
  { rewrite setup_hregs. split.
    - rewrite dom_list_to_map_L. reflexivity.
    - intros a v Hl. apply elem_of_list_to_map_2 in Hl.
      repeat (apply elem_of_cons in Hl;
              destruct Hl as [Heq | Hl]; [injection Heq as -> ->; lia|]).
      inversion Hl. }
  assert (H : dom t = list_to_set [1; 2; 3; 4; 5; 6; 7] /\ table16 t).
  { unfold t, run. revert H0. generalize (setup encRead).
    induction tks as [|tk tks IH]; intros st Hst; [exact Hst|].
    simpl. apply IH. destruct Hst as [Hd Ht]. destruct (loop_table tk st) as [A B].
    split; [now rewrite A | now apply B]. }
  destruct H as [Hd Ht]. split; [exact Hd|]. split; [exact Ht|].
  intros a Ha. unfold Hreg_get.
  destruct (t !! a) eqn:E; [|reflexivity].
  exfalso. apply (elem_of_dom_2 t) in E. rewrite Hd in E.
  apply elem_of_list_to_set in E.
  repeat (apply elem_of_cons in E; destruct E as [-> | E]; [lia|]). inversion E.
Qed.

Lemma inbound_param_static t p : static (inbound_param t p) = static p.
Proof. unfold inbound_param. now destruct (inbound_accepts _ _). Qed.

Lemma loop_static tk st : static <$> params (loop tk st) = static <$> params st.
Proof.
  change (loop tk st) with
    (sync_outbound (millis_test tk) (millis_stamp tk)
       (handle_encoder (enc_loop tk) (sync_inbound (pre_sync tk st)))).
  set (st1 := pre_sync tk st). set (st2 := sync_inbound st1).
  assert (H2 : static <$> params st2 = static <$> params st).
  { destruct (sync_inbound_params st1) as (Hp & _). fold st2 in Hp. rewrite Hp.
    unfold st1. rewrite pre_sync_params.
    apply list_eq. intros j. rewrite !list_lookup_fmap.
    destruct (params st !! j); simpl; [|reflexivity].
    now rewrite inbound_param_static. }
  assert (H3 : static <$> params (handle_encoder (enc_loop tk) st2) = static <$> params st).
  { rewrite <- H2.
    destruct (handle_encoder_params (enc_loop tk) st2) as [-> | (p & Hp & _ & ->)];
      [reflexivity|].
    rewrite list_fmap_insert. apply list_insert_id.
    unfold param_at in Hp. destruct (0 <=? editIndex st2); [|discriminate].
    now rewrite list_lookup_fmap, Hp. }
  unfold sync_outbound. destruct (outbound_due _ _); [|exact H3].
  unfold outbound_pass. now rewrite outbound_steps_params.
Qed.

(** X21: nothing but the value of a parameter is ever assigned.  A pass
    through [loop] keeps the name, unit, bounds, step and register address
    of every parameter and the number of parameters, so from boot on these
    are the ones of the initial table. *)
Theorem static_fields_along_runs :
  (forall tk st, static <$> params (loop tk st) = static <$> params st) /\
  (forall encRead tks,
     static <$> params (run tks (setup encRead)) = static <$> params0 /\
     length (params (run tks (setup encRead))) = 7%nat /\
     reg <$> params (run tks (setup encRead)) = [1; 2; 3; 4; 5; 6; 7]).
Proof.
  split; [exact loop_static|]. intros encRead tks.
  assert (H : static <$> params (run tks (setup encRead)) = static <$> params0).
  { rewrite <- (setup_params encRead). unfold run. generalize (setup encRead).
    induction tks as [|tk tks IH]; intros st; [reflexivity|].
    simpl. rewrite IH. apply loop_static. }
  split; [exact H|]. split.
  - apply (f_equal length) in H. now rewrite !length_fmap in H.
  - apply (f_equal (fmap reg)) in H. rewrite <- !list_fmap_compose in H.
    exact H.
Qed.

Lemma pre_sync_cursors tk st :
  (listIndex (pre_sync tk st) = listIndex st \/ listIndex (pre_sync tk st) = 0) /\
  (editIndex (pre_sync tk st) = editIndex st \/ editIndex (pre_sync tk st) = listIndex st) /\
  (listIndex (pre_sync tk st) = 0 -> listIndex st = 0 \/
     editIndex (pre_sync tk st) = editIndex st).
Proof.
  unfold pre_sync, btnBack_loop, btnSelect_loop, onBack, onSelect, onSelectLong.
  destruct (back tk), (sel tk) as [[]|]; simpl;
    repeat match goal with
    | |- context [match screen ?s with _ => _ end] => destruct (screen s)
    | |- context [match param_at ?s ?i with _ => _ end] => destruct (param_at s i)
    end; simpl; tauto.
Qed.

Lemma handle_encoder_listIndex now st :
  listIndex (handle_encoder now st) = listIndex st \/
  exists v, listIndex (handle_encoder now st) = clamp v 0 (PARAM_COUNT st - 1).
Proof.
  unfold handle_encoder. destruct (now =? encPrev st); [now left|].
  change (screen (set_encPrev st now)) with (screen st).
  destruct (screen st);
    repeat match goal with
    | |- context [if ?b then _ else _] => destruct b
    | |- context [match ?o with Some _ => _ | None => _ end] => destruct o
    end; try (now left); right; eexists; reflexivity.
Qed.

Lemma loop_cursors tk st :
  0 < PARAM_COUNT st -> cursors_valid st ->
  PARAM_COUNT (loop tk st) = PARAM_COUNT st /\ cursors_valid (loop tk st).
Proof.
  intros Hc [Hl He].
  assert (Hn : PARAM_COUNT (loop tk st) = PARAM_COUNT st).
  { unfold PARAM_COUNT. pose proof (loop_static tk st) as H.
    apply (f_equal length) in H. rewrite !length_fmap in H. now rewrite H. }
  split; [exact Hn|]. unfold cursors_valid. rewrite Hn.
  change (loop tk st) with
    (sync_outbound (millis_test tk) (millis_stamp tk)
       (handle_encoder (enc_loop tk) (sync_inbound (pre_sync tk st)))).
  set (st1 := pre_sync tk st). set (st2 := sync_inbound st1).
  set (st3 := handle_encoder (enc_loop tk) st2).
  destruct (pre_sync_cursors tk st) as (L1 & E1 & _). fold st1 in L1, E1.
  destruct (sync_inbound_params st1) as (Hp2 & _ & (_ & L2 & E2 & _)).
  fold st2 in Hp2, L2, E2.
  assert (Hn2 : PARAM_COUNT st2 = PARAM_COUNT st).
  { unfold PARAM_COUNT. rewrite Hp2, length_map. unfold st1.
    now rewrite pre_sync_params. }
  destruct (handle_encoder_frame (enc_loop tk) st2) as (_ & E3 & _). fold st3 in E3.
  assert (L3 : 0 <= listIndex st3 < PARAM_COUNT st).
  { destruct (handle_encoder_listIndex (enc_loop tk) st2) as [H | [v H]];
      fold st3 in H; rewrite H.
    - rewrite L2. destruct L1 as [-> | ->]; lia.
    - rewrite Hn2. pose proof (clamp_range v 0 (PARAM_COUNT st - 1)). lia. }
  assert (E3' : 0 <= editIndex st3 < PARAM_COUNT st).
  { rewrite E3, E2. destruct E1 as [-> | ->]; assumption. }
  unfold sync_outbound. destruct (outbound_due _ _); [|now split].
  unfold outbound_pass.
  destruct (outbound_steps_frame
              (seq 0 (length (params (set_tSync st3 (millis_stamp tk)))))
              (set_tSync st3 (millis_stamp tk))) as (_ & L4 & E4 & _).
  rewrite L4, E4. now split.
Qed.

(** X22: the cursors never leave the parameter array.  From boot on, after
    every pass through [loop] and whatever the inputs, [listIndex] and
    [editIndex] are valid indices, so every access [params[editIndex]] of
    the handlers and of the encoder switch finds a parameter. *)
Theorem cursors_along_runs (encRead : Z) (tks : list Tick) :
  let st := run tks (setup encRead) in
  cursors_valid st /\ PARAM_COUNT st = 7 /\
  is_Some (param_at st (editIndex st)) /\ is_Some (param_at st (listIndex st)).
Proof.
  intros st.
  assert (H : PARAM_COUNT st = 7 /\ cursors_valid st).
  { unfold st, run.
    assert (H0 : PARAM_COUNT (setup encRead) = 7 /\ cursors_valid (setup encRead)).
    { unfold PARAM_COUNT, cursors_valid, PARAM_COUNT. rewrite setup_params.
      assert (Hl : listIndex (setup encRead) = 0).
      { unfold setup. cbv zeta.
        assert (H : forall l s, listIndex (fold_left preload l s) = listIndex s).
        { induction l as [|i l IH]; intros s; [reflexivity|].
          simpl. rewrite IH. unfold preload. now destruct (params s !! i). }
        assert (He : forall s e, listIndex (set_encPrev s e) = listIndex s) by reflexivity.
        rewrite He, H. reflexivity. }
      assert (Hei : editIndex (setup encRead) = 0).
      { unfold setup. cbv zeta.
        assert (H : forall l s, editIndex (fold_left preload l s) = editIndex s).
        { induction l as [|i l IH]; intros s; [reflexivity|].
          simpl. rewrite IH. unfold preload. now destruct (params s !! i). }
        assert (He : forall s e, editIndex (set_encPrev s e) = editIndex s) by reflexivity.
        rewrite He, H. reflexivity. }
      rewrite Hl, Hei. simpl. lia. }
    revert H0. generalize (setup encRead).
    induction tks as [|tk tks IH]; intros s Hs; [exact Hs|].
    simpl. apply IH. destruct Hs as [Hc Hv].
    destruct (loop_cursors tk s) as [A B]; [lia | exact Hv|].
    split; [now rewrite A | exact B]. }
  destruct H as [Hc [Hl He]]. split; [now split|]. split; [exact Hc|].
  unfold param_at, PARAM_COUNT in *.
  split.
  - destruct (Z.leb_spec 0 (editIndex st)); [|lia].
    apply lookup_lt_is_Some_2. lia.
  - destruct (Z.leb_spec 0 (listIndex st)); [|lia].
    apply lookup_lt_is_Some_2. lia.
Qed.

(** X25: the parameter store keeps its invariant.  A pass through [loop]
    takes a store with ordered bounds and values within them to such a
    store, and from boot on, whatever the inputs, every parameter value is
    within its bounds and is not a NaN. *)
Theorem param_values_along_runs :
  (forall tk st, Forall param_ok (params st) -> Forall param_ok (params (loop tk st))) /\
  (forall encRead tks p, p ∈ params (run tks (setup encRead)) ->
     in_bounds p = true /\ F32.is_nan (value p) = false).
Proof.
  split; [exact loop_keeps_bounds|]. intros encRead tks p Hp.
  pose proof (reachable_within_bounds encRead tks) as H.
  rewrite Forall_forall in H. destruct (H p Hp) as [_ Hin].
  split; [exact Hin|]. unfold in_bounds in Hin. apply andb_true_iff in Hin.
  destruct Hin as [Hin _]. now apply le_not_nan in Hin.
Qed.

End Runs.

(** ** binary32 values along every run *)

Section Binary32Runs.

Context {U : LroundfUnspecified}.

Lemma clampf_binary32 v lo hi :
  binary32 v = true -> binary32 lo = true -> binary32 hi = true ->
  binary32 (clampf v lo hi) = true.
Proof.
  intros Hv Hlo Hhi. unfold clampf.
  destruct (F32.lt v lo); [exact Hlo|]. now destruct (F32.gt v hi).
Qed.

Lemma neg_binary32 x : binary32 x = true -> binary32 (F32.neg x) = true.
Proof. now destruct x. Qed.

Lemma table_binary32 p0 :
  In p0 params0 ->
  binary32 (minVal p0) = true /\ binary32 (maxVal p0) = true /\ binary32 (step p0) = true.
Proof.
  intros Hp. simpl in Hp.
  repeat (destruct Hp as [<- | Hp]; [vm_compute; repeat split|]). destruct Hp.
Qed.

Lemma Hreg_get_16 t a : table16 t -> 0 <= Hreg_get t a < 65536.
Proof.
  intros Ht. unfold Hreg_get. destruct (t !! a) eqn:E; simpl; [|lia]. now apply (Ht a).
Qed.

Lemma inbound_param_binary32 t p0 q :
  In p0 params0 -> static q = static p0 -> table16 t ->
  binary32 (value q) = true -> binary32 (value (inbound_param t q)) = true.
Proof.
  intros Hp Hq Ht Hv. unfold inbound_param.
  destruct (inbound_accepts q _); [|exact Hv]. simpl.
  destruct (static_fields p0 q Hq) as (Hs & Hlo & Hhi & _).
  destruct (table_binary32 p0 Hp) as (Blo & Bhi & _).
  apply clampf_binary32; rewrite ?Hlo, ?Hhi; try assumption.
  pose proof (pin_check_all p0 (Hreg_get t (reg q)) Hp (Hreg_get_16 _ _ Ht)) as Hc.
  unfold pin_check in Hc. rewrite !andb_true_iff in Hc.
  destruct Hc as ((Hc & _) & _). unfold fromReg in *. now rewrite Hs.
Qed.

Lemma edit_candidate_binary32 p0 q d :
  In p0 params0 -> static q = static p0 ->
  binary32 (value q) = true -> binary32 (edit_candidate q d) = true.
Proof.
  intros Hp Hq Hv. unfold edit_candidate.
  destruct (static_fields p0 q Hq) as (Hs & Hlo & Hhi & _).
  destruct (table_binary32 p0 Hp) as (Blo & Bhi & Bs).
  apply clampf_binary32; rewrite ?Hlo, ?Hhi, ?Hs; try assumption.
  apply add_binary32; [exact Hv|]. destruct (d >? 0); [exact Bs|].
  now apply neg_binary32.
Qed.

(** A parameter of a store with the statics of the table has the statics
    of an entry of the table. *)
Lemma static_lookup (ps : list Param) i p :
  static <$> ps = static <$> params0 -> ps !! i = Some p ->
  exists p0, In p0 params0 /\ static p = static p0.
Proof.
  intros Hs Hi.
  assert (H : (static <$> params0) !! i = Some (static p)).
  { rewrite <- Hs, list_lookup_fmap, Hi. reflexivity. }
  rewrite list_lookup_fmap in H.
  destruct (params0 !! i) as [p0|] eqn:E; [|discriminate].
  simpl in H. exists p0. split; [|symmetry; apply (f_equal (default (static p))) in H; exact H].
  apply list_elem_of_In. now apply list_elem_of_lookup_2 with i.
Qed.

Lemma loop_keeps_binary32 tk st :
  static <$> params st = static <$> params0 -> table16 (hregs st) ->
  Forall (fun p => binary32 (value p) = true) (params st) ->
  Forall (fun p => binary32 (value p) = true) (params (loop tk st)).
Proof.
  intros Hs Ht Hok.
  change (loop tk st) with
    (sync_outbound (millis_test tk) (millis_stamp tk)
       (handle_encoder (enc_loop tk) (sync_inbound (pre_sync tk st)))).
  set (st1 := pre_sync tk st). set (st2 := sync_inbound st1).
  assert (Ht1 : table16 (hregs st1)) by (now apply (pre_sync_table tk st)).
  assert (Hp2 : params st2 = map (inbound_param (hregs st1)) (params st)).
  { destruct (sync_inbound_params st1) as (Hp & _). fold st2 in Hp. rewrite Hp.
    unfold st1. now rewrite pre_sync_params. }
  assert (Hs2 : static <$> params st2 = static <$> params0).
  { rewrite <- Hs, Hp2. apply list_eq. intros j. rewrite !list_lookup_fmap.
    destruct (params st !! j); simpl; [|reflexivity]. now rewrite inbound_param_static. }
  assert (H2 : Forall (fun p => binary32 (value p) = true) (params st2)).
  { rewrite Hp2. apply Forall_map. rewrite Forall_lookup in Hok |- *.
    intros j p Hj. destruct (static_lookup _ _ _ Hs Hj) as (p0 & Hp0 & Hq).
    apply (inbound_param_binary32 _ p0); auto. now apply (Hok j). }
  assert (H3 : Forall (fun p => binary32 (value p) = true)
                 (params (handle_encoder (enc_loop tk) st2))).
  { destruct (handle_encoder_params (enc_loop tk) st2) as [-> | (p & Hp & Ha & ->)];
      [exact H2|].
    apply Forall_insert; [exact H2|]. simpl.
    unfold param_at in Hp. destruct (0 <=? editIndex st2); [|discriminate].
    destruct (static_lookup _ _ _ Hs2 Hp) as (p0 & Hp0 & Hq).
    apply (edit_candidate_binary32 p0); auto.
    rewrite Forall_lookup in H2. now apply (H2 _ _ Hp). }
  unfold sync_outbound. destruct (outbound_due _ _); [|exact H3].
  unfold outbound_pass. now rewrite outbound_steps_params.
Qed.


Lemma setup_table16 encRead : table16 (hregs (setup encRead)).
Proof.
  rewrite setup_hregs. intros a v Hl. apply elem_of_list_to_map_2 in Hl.
  repeat (apply elem_of_cons in Hl;
          destruct Hl as [Heq | Hl]; [injection Heq as -> ->; lia|]).
  inversion Hl.
Qed.

(** From boot on the store has the statics of the table, the register
    table is 16-bit and every value is a binary32 number. *)
Lemma reachable_store encRead tks :
  let st := run tks (setup encRead) in
  static <$> params st = static <$> params0 /\ table16 (hregs st) /\
  Forall (fun p => binary32 (value p) = true) (params st).
Proof.
  assert (H0 : static <$> params (setup encRead) = static <$> params0 /\
               table16 (hregs (setup encRead)) /\
               Forall (fun p => binary32 (value p) = true) (params (setup encRead))).
  { rewrite setup_params. split; [reflexivity|]. split; [apply setup_table16|].
    unfold params0. repeat (constructor; [vm_compute; reflexivity|]). constructor. }
  cbv zeta. unfold run. revert H0. generalize (setup encRead).
  induction tks as [|tk tks IH]; intros st Hst; [exact Hst|].
  simpl. apply IH. destruct Hst as (Hs & Ht & Hb). split; [|split].
  - now rewrite loop_static.
  - now apply (loop_table tk st).
  - now apply loop_keeps_binary32.
Qed.

(** In every state the device reaches from boot, whatever the inputs, a
    register whose candidate lies above [maxVal] makes the inbound pass
    store [maxVal], and no register gives a candidate below [minVal]. *)
Lemma inbound_pins_along_runs encRead tks i p :
  let st := run tks (setup encRead) in
  let candidate := fromReg p (Hreg_get (hregs st) (reg p)) in
  params st !! i = Some p ->
  F32.lt candidate (minVal p) = false /\
  (F32.gt candidate (maxVal p) = true ->
     exists p', params (sync_inbound st) !! i = Some p' /\ value p' = maxVal p).
Proof.
  intros st candidate Hi.
  destruct (reachable_store encRead tks) as (Hs & Ht & Hb). fold st in Hs, Ht, Hb.
  destruct (static_lookup _ _ _ Hs Hi) as (p0 & Hp0 & Hq).
  pose proof (reachable_within_bounds encRead tks) as Hok. fold st in Hok.
  rewrite Forall_lookup in Hok, Hb.
  destruct (Hok _ _ Hi) as [_ Hin].
  destruct (inbound_pins p0 p (Hreg_get (hregs st) (reg p)) Hp0 Hq (Hb _ _ Hi) Hin
              (Hreg_get_16 _ _ Ht)) as (_ & Hlo & Hhi).
  split; [exact Hlo|]. intros Hgt. destruct (Hhi Hgt) as [Ha Hc].
  exists (inbound_param (hregs st) p). split; [now apply sync_inbound_lookup|].
  unfold inbound_param. rewrite Ha. exact Hc.
Qed.

End Binary32Runs.

(** ** A press followed by a long press *)

Section PressThenLongPress.

Context {U : LroundfUnspecified}.

(** The sync passes and the encoder switch never change the screen. *)
Lemma sync_keeps_screen tk st :
  screen (sync_outbound (millis_test tk) (millis_stamp tk)
            (handle_encoder (enc_loop tk) (sync_inbound st))) = screen st.
Proof.
  assert (Ho : forall s, screen (sync_outbound (millis_test tk) (millis_stamp tk) s) = screen s).
  { intros s. unfold sync_outbound. destruct (outbound_due _ _); [|reflexivity].
    unfold outbound_pass.
    now destruct (outbound_steps_frame (seq 0 (length (params (set_tSync s (millis_stamp tk)))))
                    (set_tSync s (millis_stamp tk))) as (-> & _). }
  rewrite Ho. destruct (handle_encoder_frame (enc_loop tk) (sync_inbound st)) as (-> & _).
  now destruct (sync_inbound_params st) as (_ & _ & (-> & _)).
Qed.

Lemma loop_screen tk st : screen (loop tk st) = screen (pre_sync tk st).
Proof. apply sync_keeps_screen. Qed.

Lemma run_no_button_screen tks st :
  Forall no_button tks -> screen (run tks st) = screen st.
Proof.
  unfold run. revert st. induction tks as [|tk tks IH]; intros st Hf; [reflexivity|].
  inversion Hf as [|? ? [Hs Hb] Hf']; subst. simpl. rewrite IH by assumption.
  rewrite loop_screen. unfold pre_sync, btnBack_loop, btnSelect_loop.
  now rewrite Hs, Hb.
Qed.

(** X5: a Select press never leaves the device on [HOME].  So the
    long-press handler does nothing when it runs directly after the press
    handler, and also when it runs after the pass of the press and any
    number of further passes in which neither button fires: the screen is
    still not [HOME] then.  A Back press in between undoes this: from
    [HOME], press, Back and long press end on the serial menu. *)
Theorem long_press_after_press_is_noop (st : State) (e1 e2 : Z) :
  screen (onSelect e1 st) <> HOME /\
  onSelectLong e2 (onSelect e1 st) = onSelect e1 st /\
  (forall tkP tks tkL,
     sel tkP = Some Pressed -> back tkP = false -> Forall no_button tks ->
     sel tkL = Some LongClickDetected ->
     let st' := run tks (loop tkP st) in
     screen st' <> HOME /\
     btnSelect_loop tkL (mb_task (remote tkL) st') = mb_task (remote tkL) st') /\
  (screen st = HOME ->
     screen (onSelectLong e2 (onBack (onSelect e1 st))) = SERIAL_MENU).
Proof.
  assert (H : forall e s, screen (onSelect e s) <> HOME).
  { intros e s. unfold onSelect. destruct (screen s); simpl; discriminate. }
  assert (HL : forall e s, screen s <> HOME -> onSelectLong e s = s).
  { intros e s Hs. unfold onSelectLong. destruct (screen s); congruence. }
  split; [apply H|]. split; [apply HL, H|]. split.
  - intros tkP tks tkL HP HB Hidle HLc st'.
    assert (Hs : screen st' <> HOME).
    { unfold st'. rewrite run_no_button_screen by assumption.
      rewrite loop_screen. unfold pre_sync, btnBack_loop, btnSelect_loop.
      rewrite HP, HB. apply H. }
    split; [exact Hs|]. unfold btnSelect_loop. rewrite HLc. now apply HL.
  - intros Hh. unfold onSelect. rewrite Hh. reflexivity.
Qed.

End PressThenLongPress.

(** ** Decoding and encoding a raw value *)

Section RawRoundTrip.

Context {U : LroundfUnspecified}.

Lemma roundtrip_table :
  forallb (fun p => all_below (roundtrip_raw p) (Z.to_pos (raw_limit p + 1))) params0 = true.
Proof. vm_compute. reflexivity. Qed.

Lemma raw_limit_nonneg p : In p params0 -> 0 <= raw_limit p.
Proof.
  intros H. simpl in H.
  repeat (destruct H as [<- | H]; [vm_compute; discriminate|]). destruct H.
Qed.

Lemma roundtrip_params0 p rv :
  In p params0 -> 0 <= rv <= raw_limit p -> roundtrip_raw p rv = true.
Proof.
  intros Hp Hr. pose proof roundtrip_table as H.
  rewrite forallb_forall in H. specialize (H p Hp).
  apply (all_below_spec _ _ H).
  pose proof (raw_limit_nonneg p Hp). rewrite Z2Pos.id; lia.
Qed.

Lemma decode_then_encode_exact_aux (p q : Param) (rv : Z) :
  In p params0 -> static q = static p -> 0 <= rv <= raw_limit p ->
  toReg (set_value q (fromReg q rv)) = rv /\
  in_bounds (set_value q (fromReg q rv)) = true.
Proof.
  intros Hp Hq Hr. pose proof (roundtrip_params0 p rv Hp Hr) as H.
  unfold roundtrip_raw in H. apply andb_true_iff in H. destruct H as [H1 H2].
  apply Z.eqb_eq in H1.
  assert (Hf : fromReg q rv = fromReg p rv).
  { unfold fromReg. now destruct (static_fields p q Hq) as (-> & _). }
  rewrite Hf, (static_set_value p q _ Hq). now split.
Qed.

(** X23: decoding then encoding is exact on the seven parameters.  For a
    parameter that has the name, unit, bounds, step and address of an entry
    of the initial table, whatever its value, every raw value from 0 up to
    the encoding of [maxVal] (up to 65535 for NH3-N) decodes to a value
    within the bounds that encodes back to the same raw value. *)
Theorem decode_then_encode_exact (p q : Param) (rv : Z) :
  In p params0 -> static q = static p -> 0 <= rv <= raw_limit p ->
  toReg (set_value q (fromReg q rv)) = rv /\
  in_bounds (set_value q (fromReg q rv)) = true.
Proof. exact (decode_then_encode_exact_aux p q rv). Qed.

Lemma clampf_inside v lo hi :
  F32.le lo v = true -> F32.le v hi = true -> clampf v lo hi = v.
Proof.
  intros H1 H2. unfold clampf.
  apply le_not_gt in H1. apply le_not_gt in H2.
  unfold F32.gt in H1. unfold F32.lt. rewrite H1. now rewrite H2.
Qed.

(** X24: a write of the master within the raw range sticks.  When the
    inbound pass accepts such a raw value for a parameter of the table
    (distinct addresses, no rotation in the tick), the parameter takes the
    decoded value itself, unclamped, and after the tick the register still
    reads the raw value the master wrote, whether or not the outbound pass
    ran. *)
Theorem accepted_write_sticks (tk : Tick) (st : State) (i : nat) (p q : Param) :
  let st1 := pre_sync tk st in
  let rv := Hreg_get (hregs st1) (reg q) in
  In p params0 -> static q = static p ->
  NoDup (reg <$> params st1) -> params st1 !! i = Some q ->
  0 <= rv <= raw_limit p ->
  inbound_accepts q rv = true ->
  enc_loop tk = encPrev st1 ->
  params (loop tk st) !! i = Some (set_value q (fromReg q rv)) /\
  Hreg_get (hregs (loop tk st)) (reg q) = rv.
Proof.
  intros st1 rv Hp Hq Hnd Hi Hr Ha Henc.
  destruct (decode_then_encode_exact_aux p q rv Hp Hq Hr) as [Henc' Hin].
  change (loop tk st) with
    (sync_outbound (millis_test tk) (millis_stamp tk)
       (handle_encoder (enc_loop tk) (sync_inbound st1))).
  destruct (sync_inbound_params st1) as (_ & Hh2 & (_ & _ & _ & He2 & _)).
  rewrite Henc, <- He2, handle_encoder_idle.
  set (st2 := sync_inbound st1) in *.
  set (q' := set_value q (fromReg q rv)).
  assert (Hi2 : params st2 !! i = Some q').
  { unfold st2. rewrite (sync_inbound_lookup st1 i q Hi).
    unfold inbound_param. fold rv. rewrite Ha. unfold q'. f_equal. f_equal.
    unfold in_bounds in Hin. cbn [minVal maxVal value set_value] in Hin.
    apply andb_true_iff in Hin. destruct Hin. now apply clampf_inside. }
  assert (Hnd2 : NoDup (reg <$> params st2)).
  { unfold st2. now rewrite sync_inbound_regs. }
  unfold sync_outbound. destruct (outbound_due _ _).
  - set (st2' := set_tSync st2 (millis_stamp tk)).
    assert (Hnd3 : NoDup (reg <$> params st2')) by exact Hnd2.
    rewrite (outbound_pass_params st2' Hnd3). split; [exact Hi2|].
    unfold Hreg_get at 1. change (reg q) with (reg q') at 1.
    rewrite (outbound_pass_lookup st2' q' Hnd3).
    + cbn [hregs set_tSync st2']. rewrite Hh2. fold q' in Henc'. rewrite Henc'.
      change (reg q') with (reg q). unfold rv at 2. unfold Hreg_get.
      destruct (hregs st1 !! reg q) eqn:E; simpl; [|reflexivity].
      unfold rv, Hreg_get. now rewrite E.
    + apply list_elem_of_lookup_2 with i. exact Hi2.
  - split; [exact Hi2|]. now rewrite Hh2.
Qed.

End RawRoundTrip.

(** * The statements on concrete inputs *)

Section Concrete.

#[local] Existing Instance lroundf_zero.

Lemma params0_regs_NoDup : NoDup (reg <$> params0).
Proof. apply (bool_decide_unpack _). vm_compute. exact I. Qed.

(** C3 as stated fails on a tie: TDS stands at 500.5 and its register
    holds 501, so the candidate 501 is exactly half a step away; the
    distance is [>=] half a step, yet the inbound pass leaves 500.5 in
    place instead of storing 501. *)
Lemma inbound_tie_not_overwritten :
  let p := set_value TDS (F32.lit 1001 2) in
  let candidate := fromReg p (Hreg_get (hregs st_tie) (reg p)) in
  params st_tie !! 1%nat = Some p /\
  candidate = F32.of_Z 501 /\
  F32.ge (F32.fabsf (F32.sub candidate (value p))) (F32.mul (step p) F32.half) = true /\
  params (sync_inbound st_tie) !! 1%nat = Some p /\
  value p <> clampf candidate (minVal p) (maxVal p).
Proof. vm_compute. repeat split. discriminate. Qed.

Lemma inbound_strict_threshold_witness :
  params st_edit !! 0%nat = Some (set_value pH (F32.lit 1399 100)) /\
  exists p', params (sync_inbound st_edit) !! 0%nat = Some p' /\
    value p' = maxVal pH.
Proof.
  split; [reflexivity|].
  destruct (inbound_strict_threshold st_edit 0 _ eq_refl) as (p' & Hl & Hgt & _).
  exists p'. split; [exact Hl|].
  rewrite Hgt; [|vm_compute; reflexivity]. vm_compute. reflexivity.
Defined.

Lemma value_stays_within_bounds_witness :
  let p := set_value pH (F32.lit 1399 100) in
  F32.le (minVal p) (maxVal p) = true /\
  (exists p', params (sync_inbound st_edit) !! 0%nat = Some p' /\
     in_bounds p' = true /\ value p' = maxVal p) /\
  (exists p', param_at (handle_encoder 1 st_edit) (editIndex st_edit) = Some p' /\
     in_bounds p' = true) /\
  (In pH params0 /\ static p = static pH /\ binary32 (value p) = true /\
   in_bounds p = true /\ Hreg_get (hregs st_edit) (reg p) = 2000 /\
   inbound_accepts p 2000 = true /\
   exists p', params (sync_inbound st_edit) !! 0%nat = Some p' /\ value p' = maxVal p).
Proof.
  intros p.
  assert (Hb : F32.le (minVal p) (maxVal p) = true) by (vm_compute; reflexivity).
  split; [exact Hb|].
  destruct (value_stays_within_bounds st_edit p Hb) as (Hin & Hrot & Hpin). split; [|split].
  - destruct (Hin 0%nat eq_refl) as (p' & Hl & _ & _ & _ & _ & Hacc).
    destruct Hacc as (Hbd & Hmax & _); [vm_compute; reflexivity|].
    exists p'. split; [exact Hl|]. split; [exact Hbd|].
    apply Hmax. vm_compute. reflexivity.
  - destruct (Hrot 1) as (p' & Hl & _ & _ & _ & _ & Hacc);
      [reflexivity | reflexivity | discriminate |].
    destruct Hacc as (Hbd & _); [vm_compute; reflexivity|].
    exists p'. split; [exact Hl | exact Hbd].
  - assert (Hp0 : In pH params0) by (simpl; tauto).
    assert (Hv : binary32 (value p) = true) by (vm_compute; reflexivity).
    assert (Hi : in_bounds p = true) by (vm_compute; reflexivity).
    assert (Hrv : Hreg_get (hregs st_edit) (reg p) = 2000) by (vm_compute; reflexivity).
    split; [exact Hp0|]. split; [reflexivity|]. split; [exact Hv|].
    split; [exact Hi|]. split; [exact Hrv|].
    destruct (Hpin 0%nat pH Hp0 eq_refl eq_refl Hv Hi) as [_ Hmax];
      [rewrite Hrv; lia|].
    rewrite Hrv in Hmax. apply Hmax. vm_compute. reflexivity.
Defined.

(** C4 as stated fails next to a bound: TDS stands at 1007.75 and the
    encoder turns up.  The candidate 1008.75 is beyond [maxVal] and is
    clamped to 1008, a quarter of a step from the value; the edit test asks
    for half a step, so the value stays at 1007.75 and is not moved to the
    bound. *)
Lemma edit_near_bound_not_pinned :
  let p := set_value TDS (F32.lit 4031 4) in
  screen st_near = PARAM_EDIT /\
  param_at st_near (editIndex st_near) = Some p /\
  in_bounds p = true /\
  F32.add (value p) (step p) = F32.lit 4035 4 /\
  F32.gt (F32.add (value p) (step p)) (maxVal p) = true /\
  param_at (handle_encoder 1 st_near) (editIndex st_near) = Some p /\
  value p <> maxVal p.
Proof. vm_compute. repeat split. discriminate. Qed.

(** The same happens in a state the device reaches from boot: after
    [low_ticks] the editor is open on pH, which holds 2^-27.  One more
    detent down gives a candidate below [minVal], which is clamped to 0,
    less than half a step from the value; the value stays at 2^-27 and is
    not moved to the bound. *)
Lemma edit_at_bound_not_pinned_from_boot :
  let p := set_value pH (S754_finite false 8388608 (-50)) in
  screen st_low = PARAM_EDIT /\
  param_at st_low (editIndex st_low) = Some p /\
  in_bounds p = true /\
  F32.lt (F32.add (value p) (F32.neg (step p))) (minVal p) = true /\
  encPrev st_low = -7 /\ encPrev (loop tk_low st_low) = -8 /\
  params (loop tk_low st_low) !! 0%nat = Some p /\
  value p <> minVal p.
Proof. vm_compute. repeat split. discriminate. Qed.

(** C5 as stated fails inside the threshold: TDS stands at 500.5, which
    encodes as 501, and the master writes 500 just before the tick.  The
    candidate 500 is not more than half a step away, so the inbound pass
    does not absorb it, and the outbound pass of the same tick writes 501
    over it. *)
Lemma remote_write_within_threshold_overwritten :
  let tk := tk_remote 2 500 301 in
  let p := set_value TDS (F32.lit 1001 2) in
  Hreg_get (hregs (pre_sync tk st_tie)) 2 = 500 /\
  params (pre_sync tk st_tie) !! 1%nat = Some p /\
  params (loop tk st_tie) !! 1%nat = Some p /\
  Hreg_get (hregs (loop tk st_tie)) 2 = 501 /\
  trace (loop tk st_tie) = trace st_tie ++ [HregWrite 2 501].
Proof. vm_compute. repeat split. Qed.

(** The same happens in a state the device reaches from boot: after
    [drift_ticks] NH3-N holds a value that encodes as 32770 and lies
    within half a step of 327.69; the master's write of 32769 is not
    absorbed and the outbound pass of that tick replaces it by 32770. *)
Lemma remote_write_overwritten_after_drift :
  let p := set_value NH3N (S754_finite false 10737909 (-15)) in
  params st_drift !! 6%nat = Some p /\
  screen st_drift = PARAM_EDIT /\
  Hreg_get (hregs (pre_sync tk_drift st_drift)) 7 = 32769 /\
  params (loop tk_drift st_drift) !! 6%nat = Some p /\
  Hreg_get (hregs (loop tk_drift st_drift)) 7 = 32770.
Proof. vm_compute. repeat split. Qed.

(** A write of the master is also lost when Select saves, in a state
    reached from boot: the editor is open on pH at 7.00, the master writes
    650 and Select is pressed.  The handler writes 700 over the 650 before
    the inbound pass reads the register, so the write is never absorbed. *)
Lemma remote_write_lost_on_select :
  screen st_opened = PARAM_EDIT /\
  params st_opened !! 0%nat = Some pH /\
  Hreg_get (hregs (mb_task (remote tk_save) st_opened)) 1 = 650 /\
  select_saves tk_save st_opened 0 = true /\
  Hreg_get (hregs (pre_sync tk_save st_opened)) 1 = 700 /\
  params (loop tk_save st_opened) !! 0%nat = Some pH /\
  Hreg_get (hregs (loop tk_save st_opened)) 1 = 700.
Proof. vm_compute. repeat split. Qed.

(** What is pushed after an absorption can be the encoding of the value
    the parameter had before the tick, in a state reached from boot: pH is
    at its [maxVal] 14.00 and the master writes 2000.  The candidate 20.00
    is accepted and clamped to 14.00, and the outbound pass writes 1400
    over the 2000. *)
Lemma absorbed_clamp_repeats_old_value :
  let p := set_value pH (maxVal pH) in
  params st_top !! 0%nat = Some p /\
  Hreg_get (hregs (pre_sync tk_over st_top)) 1 = 2000 /\
  inbound_accepts p 2000 = true /\
  params (loop tk_over st_top) !! 0%nat = Some p /\
  toReg p = 1400 /\
  Hreg_get (hregs (loop tk_over st_top)) 1 = 1400.
Proof. vm_compute. repeat split. Qed.

Lemma inbound_runs_before_outbound_witness :
  let tk := tk_remote 1 650 301 in
  NoDup (reg <$> params st_boot) /\
  params st_boot !! 0%nat = Some pH /\
  select_saves tk st_boot 0 = false /\
  inbound_accepts pH 650 = true /\
  exists q, params (loop tk st_boot) !! 0%nat = Some q /\
    value q = F32.lit 650 100 /\
    hregs (loop tk st_boot) !! 1 = Some 650.
Proof.
  intros tk.
  assert (Hnd : NoDup (reg <$> params st_boot)) by exact params0_regs_NoDup.
  split; [exact Hnd|]. split; [reflexivity|]. split; [reflexivity|].
  split; [vm_compute; reflexivity|].
  destruct (inbound_runs_before_outbound tk st_boot 0 pH Hnd eq_refl)
    as (_ & _ & _ & _ & _ & _ & _ & Hq & Hreg).
  eexists. split; [exact Hq|]. split; [vm_compute; reflexivity|].
  change (hregs (loop tk st_boot) !! reg pH = Some 650).
  rewrite Hreg. vm_compute. reflexivity.
Defined.

Lemma outbound_writes_iff_differs_witness :
  NoDup (reg <$> params st_edit) /\
  trace (outbound_pass st_edit) = trace st_edit ++ [HregWrite 1 1399] /\
  hregs (outbound_pass st_edit) !! 2 = hregs st_edit !! 2.
Proof.
  assert (Hnd : NoDup (reg <$> params st_edit)).
  { apply (bool_decide_unpack _). vm_compute. exact I. }
  split; [exact Hnd|].
  destruct (outbound_writes_iff_differs st_edit Hnd) as (Ht & _ & Hp & _).
  split.
  - rewrite Ht. vm_compute. reflexivity.
  - destruct (Hp TDS) as (_ & Hkeep & _).
    + vm_compute. right. left.
    + apply Hkeep. vm_compute. reflexivity.
Defined.

Lemma select_press_navigation_witness :
  let p := set_value pH (F32.lit 1399 100) in
  screen st_edit = PARAM_EDIT /\ param_at st_edit (editIndex st_edit) = Some p /\
  screen (onSelect 0 st_edit) = PARAM_LIST /\
  Hreg_get (hregs (onSelect 0 st_edit)) 1 = 1399 /\
  screen (onSelect 0 st_boot) = PARAM_LIST /\ listIndex (onSelect 0 st_boot) = 0 /\
  editIndex (onSelect 0 (set_listIndex (set_screen st_boot PARAM_LIST) 2)) = 2.
Proof.
  intros p. split; [reflexivity|]. split; [reflexivity|].
  destruct (select_press_navigation st_edit 0) as (_ & _ & He).
  destruct (He p eq_refl eq_refl) as (Hs & _ & _ & Hg).
  split; [exact Hs|]. split.
  - change (Hreg_get (hregs (onSelect 0 st_edit)) (reg p) = 1399).
    rewrite Hg; [vm_compute; reflexivity|]. exists 2000. vm_compute. reflexivity.
  - destruct (select_press_navigation st_boot 0) as (Hh & _).
    destruct (Hh eq_refl) as (H1 & H2). split; [exact H1|]. split; [exact H2|].
    destruct (select_press_navigation (set_listIndex (set_screen st_boot PARAM_LIST) 2) 0)
      as (_ & Hl & _).
    destruct (Hl eq_refl) as (_ & H3). exact H3.
Defined.

Lemma back_from_edit_keeps_adjustment_witness :
  let p := set_value pH (F32.lit 1399 100) in
  let st2 := onBack (handle_encoder 1 st_edit) in
  screen st_edit = PARAM_EDIT /\
  screen st2 = PARAM_LIST /\
  hregs st2 = hregs st_edit /\
  param_at st2 (editIndex st2) = Some (set_value p (F32.lit 1400 100)).
Proof.
  intros p st2. split; [reflexivity|].
  destruct (back_from_edit_keeps_adjustment st_edit 1 0 eq_refl)
    as (Hs & Hh & _ & _ & Hadj & _).
  split; [exact Hs|]. split; [exact Hh|].
  unfold st2. rewrite (Hadj p); [vm_compute; reflexivity | reflexivity | discriminate |].
  vm_compute. reflexivity.
Defined.

Lemma serial_edit_rotation_witness :
  screen st_serial = SERIAL_EDIT /\ (-1) <> encPrev st_serial /\
  baud (scfg st_serial) = 9600 /\
  baud (scfg (handle_encoder (-1) st_serial)) = 4800 /\
  parity (scfg (handle_encoder (-1) (set_serialField st_serial PARITY))) = "O"%char.
Proof.
  split; [reflexivity|]. split; [discriminate|]. split; [reflexivity|]. split.
  - destruct (serial_edit_rotation st_serial (-1) eq_refl) as (_ & Hb & _);
      [discriminate|].
    destruct (Hb eq_refl) as (_ & _ & _ & Hk).
    destruct (Hk 3) as (H & _); [lia | reflexivity|]. exact H.
  - destruct (serial_edit_rotation (set_serialField st_serial PARITY) (-1) eq_refl)
      as (_ & _ & Hp & _); [discriminate|].
    destruct (Hp eq_refl) as (_ & _ & _ & Hk).
    destruct (Hk 0) as []; [lia | reflexivity|]. reflexivity.
Defined.

Lemma long_press_outside_home_is_noop_witness :
  screen st_edit <> HOME /\ onSelectLong 5 st_edit = st_edit.
Proof.
  assert (H : screen st_edit <> HOME) by discriminate.
  split; [exact H|]. exact (proj1 (long_press_outside_home_is_noop st_edit 5 H)).
Defined.

End Concrete.

(** * The further properties on concrete inputs *)

Section ConcreteMore.

#[local] Existing Instance lroundf_zero.

Lemma clamp_within_witness : 0 <= 6 /\ clamp 9 0 6 = 6 /\ clamp (-2) 0 6 = 0.
Proof.
  assert (H : 0 <= 6) by lia. split; [exact H|]. split.
  - destruct (clamp_within 9 0 6 H) as (_ & _ & _ & Hhi & _). apply Hhi. lia.
  - destruct (clamp_within (-2) 0 6 H) as (_ & _ & Hlo & _). apply Hlo. lia.
Defined.

Lemma clampf_nan_and_range_witness :
  F32.le (F32.of_Z 0) (F32.of_Z 14) = true /\
  F32.le (clampf (F32.of_Z 20) (F32.of_Z 0) (F32.of_Z 14)) (F32.of_Z 14) = true /\
  clampf S754_nan (F32.of_Z 0) (F32.of_Z 14) = S754_nan.
Proof.
  assert (H : F32.le (F32.of_Z 0) (F32.of_Z 14) = true) by reflexivity.
  split; [exact H|].
  destruct (clampf_nan_and_range (F32.of_Z 20) (F32.of_Z 0) (F32.of_Z 14)) as [_ Hr].
  destruct (Hr H eq_refl) as (_ & Hhi & _). split; [exact Hhi|].
  exact (proj1 (clampf_nan_and_range S754_nan (F32.of_Z 0) (F32.of_Z 14)) eq_refl).
Defined.

Lemma select_then_back_returns_witness :
  screen st_list <> PARAM_EDIT /\ screen st_list <> SERIAL_EDIT /\
  screen (onBack (onSelect 3 st_list)) = PARAM_LIST /\
  hregs (onBack (onSelect 3 st_list)) = hregs st_list.
Proof.
  assert (H1 : screen st_list <> PARAM_EDIT) by discriminate.
  assert (H2 : screen st_list <> SERIAL_EDIT) by discriminate.
  split; [exact H1|]. split; [exact H2|].
  destruct (select_then_back_returns st_list 3 H1 H2) as (Hs & _ & Hh & _).
  split; [exact Hs | exact Hh].
Defined.

Lemma serial_apply_or_cancel_witness :
  screen st_serial = SERIAL_EDIT /\
  baud (scfg (onBack (handle_encoder 1 st_serial))) = 19200 /\
  trace (onBack (handle_encoder 1 st_serial)) =
    trace (handle_encoder 1 st_serial) ++ [DrawSerialMenu].
Proof.
  split; [reflexivity|].
  destruct (serial_apply_or_cancel st_serial 1 0 eq_refl) as ((_ & Hc & Ht) & _).
  split; [rewrite Hc; vm_compute; reflexivity | exact Ht].
Defined.

Lemma encoder_uses_direction_only_witness :
  1 <> encPrev st_edit /\ 5 <> encPrev st_edit /\
  (to_long (1 - encPrev st_edit) >? 0) = (to_long (5 - encPrev st_edit) >? 0) /\
  params (handle_encoder 1 st_edit) = params (handle_encoder 5 st_edit).
Proof.
  assert (H1 : 1 <> encPrev st_edit) by discriminate.
  assert (H2 : 5 <> encPrev st_edit) by discriminate.
  split; [exact H1|]. split; [exact H2|]. split; [reflexivity|].
  exact (f_equal params (encoder_uses_direction_only st_edit 1 5 H1 H2 eq_refl)).
Defined.

Lemma list_cursor_rotation_witness :
  screen st_list = PARAM_LIST /\ (-3) <> encPrev st_list /\
  0 <= listIndex st_list < PARAM_COUNT st_list /\
  listIndex (handle_encoder (-3) st_list) = 0 /\
  trace (handle_encoder (-3) st_list) = trace st_list /\
  listIndex (handle_encoder 2 st_list) = 1.
Proof.
  assert (Hn : (-3) <> encPrev st_list) by discriminate.
  assert (Hn2 : 2 <> encPrev st_list) by discriminate.
  assert (Hi : 0 <= listIndex st_list < PARAM_COUNT st_list) by (vm_compute; split; discriminate || reflexivity).
  split; [reflexivity|]. split; [exact Hn|]. split; [exact Hi|].
  destruct (list_cursor_rotation st_list (-3) eq_refl Hn Hi) as (Hl & Hc & _).
  destruct (list_cursor_rotation st_list 2 eq_refl Hn2 Hi) as (Hl2 & _).
  split; [rewrite Hl; vm_compute; reflexivity|]. split.
  - unfold calls in Hc. rewrite Hc, Hl. vm_compute. reflexivity.
  - rewrite Hl2. vm_compute. reflexivity.
Defined.

Lemma serial_menu_rotation_witness :
  screen st_menu = SERIAL_MENU /\ 1 <> encPrev st_menu /\
  serialField (handle_encoder 1 st_menu) = PARITY /\
  scfg (handle_encoder 1 st_menu) = scfg st_menu.
Proof.
  assert (Hn : 1 <> encPrev st_menu) by discriminate.
  split; [reflexivity|]. split; [exact Hn|].
  destruct (serial_menu_rotation st_menu 1 eq_refl Hn) as (Hf & _ & Hc & _).
  split; [|exact Hc].
  revert Hf. destruct (serialField (handle_encoder 1 st_menu)); vm_compute;
    intros; congruence.
Defined.

Lemma serial_edit_round_trips_witness :
  (1 >? 0) = true /\ (-1 >? 0) = false /\ In (parity scfg0) parity_order /\
  serial_edit PARITY (-1) (serial_edit PARITY 1 scfg0) = scfg0 /\
  serial_edit BAUD (-1) (serial_edit BAUD 1 scfg0) = scfg0.
Proof.
  split; [reflexivity|]. split; [reflexivity|].
  assert (Hp : In (parity scfg0) parity_order) by (simpl; tauto).
  assert (Hb : In (baud scfg0) BAUDS) by (simpl; tauto).
  split; [exact Hp|].
  destruct (serial_edit_round_trips scfg0 1 (-1) eq_refl eq_refl) as [P B].
  destruct (P Hp) as (H1 & _). destruct (B Hb) as (H2 & _).
  split; [exact H1|]. apply H2. discriminate.
Defined.

Lemma parityToMode_faithful_witness :
  let mode := parityToMode 134217752 134217784 134217754 134217786 134217755 134217787
                           134217756 134217788 134217758 134217790 134217759 134217791 in
  NoDup (mode_words 134217752 134217784 134217754 134217786 134217755 134217787
                    134217756 134217788 134217758 134217790 134217759 134217791) /\
  mode "N"%char 8 1 = 134217756 /\
  (mode (parity scfg0) (dataBits scfg0) (stopBits scfg0) =
   mode (parity (mkSerialCfg 115200 8 "N" 1)) 8 1 ->
   parity scfg0 = "N"%char) /\
  mode "x"%char 9 3 = mode "N"%char 8 1.
Proof.
  intros mode.
  assert (Hnd : NoDup (mode_words 134217752 134217784 134217754 134217786 134217755
                         134217787 134217756 134217788 134217758 134217790 134217759
                         134217791)).
  { apply (bool_decide_unpack _). vm_compute. exact I. }
  split; [exact Hnd|]. split; [reflexivity|].
  destruct (parityToMode_faithful 134217752 134217784 134217754 134217786 134217755
              134217787 134217756 134217788 134217758 134217790 134217759 134217791
              scfg0 (mkSerialCfg 115200 8 "N" 1) Hnd
              ltac:(simpl; tauto) ltac:(simpl; tauto) ltac:(simpl; tauto)
              ltac:(simpl; tauto) ltac:(simpl; tauto) ltac:(simpl; tauto))
    as [Hinj Hfall].
  split.
  - intros H. destruct (Hinj H) as (_ & Hp & _). exact Hp.
  - exact (Hfall "x"%char 9 3).
Defined.

Lemma st_edit_registers_exist :
  forall p, p ∈ params st_edit -> is_Some (hregs st_edit !! reg p).
Proof.
  apply Forall_forall. unfold st_edit. cbn [params set_screen set_hregs set_params].
  repeat (constructor; [eexists; vm_compute; reflexivity|]). constructor.
Qed.

Lemma st_edit_regs_NoDup : NoDup (reg <$> params st_edit).
Proof. apply (bool_decide_unpack _). vm_compute. exact I. Qed.

Lemma outbound_pass_mirrors_witness :
  NoDup (reg <$> params st_edit) /\
  (forall p, p ∈ params st_edit -> is_Some (hregs st_edit !! reg p)) /\
  Hreg_get (hregs st_edit) 1 = 2000 /\
  Hreg_get (hregs (outbound_pass st_edit)) 1 = 1399 /\
  outbound_pass (outbound_pass st_edit) = outbound_pass st_edit.
Proof.
  split; [exact st_edit_regs_NoDup|]. split; [exact st_edit_registers_exist|].
  split; [reflexivity|].
  destruct (outbound_pass_mirrors st_edit st_edit_regs_NoDup st_edit_registers_exist)
    as [Hm Hi].
  split; [|exact Hi].
  change (Hreg_get (hregs (outbound_pass st_edit))
            (reg (set_value pH (F32.lit 1399 100))) = 1399).
  rewrite (Hm (set_value pH (F32.lit 1399 100))); [vm_compute; reflexivity|].
  vm_compute. left.
Defined.

Lemma outbound_throttle_witness :
  outbound_due 301 st_edit = true /\
  sync_outbound 500 500 (sync_outbound 301 301 st_edit) = sync_outbound 301 301 st_edit /\
  outbound_due 300 st_edit = false /\ sync_outbound 300 300 st_edit = st_edit.
Proof.
  split; [reflexivity|].
  destruct (outbound_throttle st_edit 301 301 500 500) as [_ Hd].
  destruct (Hd eq_refl) as [_ Hn]. split; [apply Hn; vm_compute; discriminate|].
  split; [reflexivity|].
  exact (proj1 (outbound_throttle st_edit 300 300 0 0) eq_refl).
Defined.

Lemma edit_undone_by_inbound_witness :
  screen st_editing = PARAM_EDIT /\ param_at st_editing (editIndex st_editing) = Some pH /\
  1 <> encPrev st_editing /\
  edit_accepts pH (edit_candidate pH (to_long (1 - encPrev st_editing))) = true /\
  (exists q, param_at (handle_encoder 1 st_editing) 0 = Some q /\
     toReg q = 701) /\
  param_at (sync_inbound (handle_encoder 1 st_editing)) 0 = Some pH /\
  params (run [tk_rotate 1 100; tk_rotate 1 200] st_editing) = params0.
Proof.
  assert (Hn : 1 <> encPrev st_editing) by discriminate.
  assert (Ha : edit_accepts pH (edit_candidate pH (to_long (1 - encPrev st_editing))) = true)
    by (vm_compute; reflexivity).
  split; [reflexivity|]. split; [reflexivity|]. split; [exact Hn|]. split; [exact Ha|].
  destruct (edit_undone_by_inbound st_editing 1 pH eq_refl eq_refl Hn Ha) as [H1 H2];
    [vm_compute; reflexivity|].
  split; [|split].
  - eexists. split; [exact H1|]. vm_compute. reflexivity.
  - change (param_at (sync_inbound (handle_encoder 1 st_editing)) (editIndex st_editing)
            = Some pH).
    rewrite H2. vm_compute. reflexivity.
  - vm_compute. reflexivity.
Defined.

Lemma decode_then_encode_exact_witness :
  In pH params0 /\ 0 <= 1234 <= raw_limit pH /\
  toReg (set_value pH (fromReg pH 1234)) = 1234.
Proof.
  assert (Hp : In pH params0) by (simpl; tauto).
  assert (Hr : 0 <= 1234 <= raw_limit pH) by (vm_compute; split; discriminate).
  split; [exact Hp|]. split; [exact Hr|].
  exact (proj1 (decode_then_encode_exact pH pH 1234 Hp eq_refl Hr)).
Defined.

Lemma accepted_write_sticks_witness :
  let tk := tk_remote 1 650 301 in
  In pH params0 /\ params (pre_sync tk st_boot) !! 0%nat = Some pH /\
  Hreg_get (hregs (pre_sync tk st_boot)) (reg pH) = 650 /\
  inbound_accepts pH 650 = true /\
  Hreg_get (hregs (loop tk st_boot)) (reg pH) = 650.
Proof.
  intros tk.
  assert (Hp : In pH params0) by (simpl; tauto).
  assert (Hr : 0 <= Hreg_get (hregs (pre_sync tk st_boot)) (reg pH) <= raw_limit pH)
    by (vm_compute; split; discriminate).
  assert (Ha : inbound_accepts pH (Hreg_get (hregs (pre_sync tk st_boot)) (reg pH)) = true)
    by (vm_compute; reflexivity).
  split; [exact Hp|]. split; [reflexivity|]. split; [reflexivity|]. split; [exact Ha|].
  destruct (accepted_write_sticks tk st_boot 0 pH pH Hp eq_refl params0_regs_NoDup
              eq_refl Hr Ha eq_refl) as [_ H].
  exact H.
Defined.

Lemma long_press_after_press_is_noop_witness :
  let st' := run [tk_rotate 1 602] (loop (tk_select 0 301) st_boot) in
  sel (tk_select 0 301) = Some Pressed /\ back (tk_select 0 301) = false /\
  Forall no_button [tk_rotate 1 602] /\
  sel (tk_long 1 903) = Some LongClickDetected /\
  screen st' = PARAM_LIST /\
  btnSelect_loop (tk_long 1 903) (mb_task (remote (tk_long 1 903)) st')
    = mb_task (remote (tk_long 1 903)) st'.
Proof.
  intros st'.
  assert (Hf : Forall no_button [tk_rotate 1 602]) by (repeat constructor).
  split; [reflexivity|]. split; [reflexivity|]. split; [exact Hf|].
  split; [reflexivity|]. split; [vm_compute; reflexivity|].
  destruct (long_press_after_press_is_noop st_boot 0 0) as (_ & _ & Hrun & _).
  exact (proj2 (Hrun (tk_select 0 301) [tk_rotate 1 602] (tk_long 1 903)
                  eq_refl eq_refl Hf eq_refl)).
Defined.


End ConcreteMore.
